(** * Birth Chart API (Swiss Ephemeris): a shallow embedding of [app.py]

    The module [app.py] is a FastAPI service.  This file embeds, in Gallina,
    the pure helpers of the module ([normalize_deg], [zodiac_sign_and_pos],
    [round_to_arcminute], [house_for_longitude]), the effectful helpers
    ([geocode_location], [resolve_timezone_name]), the module start-up and
    the [/chart] handler, and proves the properties stated for them.

    Python floats.  A Python [float] is an IEEE-754 binary64 number.  It is
    modelled as the rational number it denotes ([Q]); every float operation
    of the source computes the exact rational result and rounds it with
    [rnd64], round-to-nearest-ties-to-even onto the binary64 grid (53-bit
    significand, least exponent -1074).  Overflow to infinity, NaN and
    signed zeros are not modelled: the values handled here are angles and
    house positions far below 2^1024, and CPython's [%] and [//] turn
    zero results into +0.0 anyway.  Operations that are exact in IEEE
    arithmetic ([fmod], [floor], comparisons, [int], [round]) are exact
    here too. *)

From Stdlib Require Import ZArith QArith Qround Qabs Qpower Lia Lqa.
From Stdlib Require Import Ascii String List Bool.
Import ListNotations.

Open Scope Z_scope.

(* ------------------------------------------------------------------ *)
(** ** Binary64 rounding *)

Module Float64.

Open Scope Q_scope.

(** [2 ^ e] for an integer exponent. *)
Definition pow2 (e : Z) : Q := Qpower (2 # 1) e.

(** Boolean comparisons on [Q]. *)
Definition qltb (x y : Q) : bool :=
  match Qcompare x y with Lt => true | _ => false end.
Definition qleb (x y : Q) : bool :=
  match Qcompare x y with Gt => false | _ => true end.
Definition qeqb (x y : Q) : bool :=
  match Qcompare x y with Eq => true | _ => false end.

(** [floor (log2 a)] for [a > 0]: the candidate [log2 num - log2 den] is
    off by at most one. *)
Definition flog2 (a : Q) : Z :=
  let k := (Z.log2 (Qnum a) - Z.log2 (Zpos (Qden a)))%Z in
  if qltb a (pow2 k) then (k - 1)%Z else k.

(** Exponent of the last significand bit of [x] (its quantum). *)
Definition fexp (x : Q) : Z := Z.max (flog2 (Qabs x) - 52) (-1074).

(** Round half to even, to an integer: C's [nearbyint], Python's
    [round(x)] for a float [x]. *)
Definition rhe (q : Q) : Z :=
  let f := Qfloor q in
  match Qcompare (q - inject_Z f) (1 # 2) with
  | Lt => f
  | Gt => (f + 1)%Z
  | Eq => if Z.even f then f else (f + 1)%Z
  end.

(** Round a rational to the nearest binary64 value, ties to even. *)
Definition rnd64 (x : Q) : Q :=
  let x := Qred x in
  if qeqb x 0 then 0 else
  let e := fexp x in Qred (inject_Z (rhe (x / pow2 e)) * pow2 e).

(** Float arithmetic of the source. *)
Definition fadd (x y : Q) : Q := rnd64 (x + y).
Definition fsub (x y : Q) : Q := rnd64 (x - y).
Definition fmul (x y : Q) : Q := rnd64 (x * y).
Definition fdiv (x y : Q) : Q := rnd64 (x / y).

(** Python [int(x)] on a float: truncation toward zero. *)
Definition py_int (x : Q) : Z :=
  if qleb 0 x then Qfloor x else Qceiling x.

(** C [fmod(x, w)]: [x - w * trunc (x / w)], exact in IEEE arithmetic. *)
Definition c_fmod (x w : Q) : Q := Qred (x - inject_Z (py_int (x / w)) * w).

(** CPython [float_rem], i.e. [x % w] on floats ([w <> 0]). *)
Definition py_mod (x w : Q) : Q :=
  let m := c_fmod x w in
  if negb (qeqb m 0) then
    (if negb (Bool.eqb (qltb w 0) (qltb m 0)) then fadd m w else m)
  else 0.

(** CPython [_float_div_mod], the floor-division half, i.e. [x // w]. *)
Definition py_floordiv (x w : Q) : Q :=
  let m := c_fmod x w in
  let div := fdiv (fsub x m) w in
  let div :=
    if negb (qeqb m 0) then
      (if negb (Bool.eqb (qltb w 0) (qltb m 0)) then fsub div 1 else div)
    else div in
  if negb (qeqb div 0) then
    let fd := inject_Z (Qfloor div) in
    if qltb (1 # 2) (fsub div fd) then fadd fd 1 else fd
  else 0.

(** Values exactly representable in binary64 (finite range). *)
Definition repr (x : Q) : Prop :=
  exists (N f : Z), x == inject_Z N * pow2 f /\ (Z.abs N < 2 ^ 53)%Z /\ (-1074 <= f)%Z.

End Float64.

(* ------------------------------------------------------------------ *)
(** ** Python values and exceptions *)

Module Py.
Local Open Scope string_scope.

(** Exceptions that reach the callers of the module's functions. *)
Inductive exn : Type :=
| HTTPException (status_code : Z) (detail : string)   (* fastapi.HTTPException *)
| IndexError
| KeyError (key : string)
| ValueError (msg : string)
| LibraryError (msg : string).   (* any other exception of a library call *)

(** [str(e)] *)
Definition exn_str (e : exn) : string :=
  match e with
  | HTTPException _ d => d
  | IndexError => "list index out of range"
  | KeyError k => k
  | ValueError m => m
  | LibraryError m => m
  end.

(** A Python computation returns a value or raises. *)
Inductive result (A : Type) : Type :=
| Ok (a : A)
| Raise (e : exn).
Arguments Ok {A} a.
Arguments Raise {A} e.

Definition bind {A B : Type} (m : result A) (k : A -> result B) : result B :=
  match m with Ok a => k a | Raise e => Raise e end.

Notation "x <- m ;; k" := (bind m (fun x => k))
  (at level 61, m at next level, right associativity).
Notation "' p <- m ;; k" := (bind m (fun x => match x with p => k end))
  (at level 61, p pattern, m at next level, right associativity).

(** [l[i]] on a Python list or tuple, negative indices counting from the end. *)
Definition py_index {A : Type} (l : list A) (i : Z) : result A :=
  let n := Z.of_nat (length l) in
  let j := if (i <? 0)%Z then (i + n)%Z else i in
  if (0 <=? j)%Z && (j <? n)%Z then
    match nth_error l (Z.to_nat j) with Some a => Ok a | None => Raise IndexError end
  else Raise IndexError.

(** Truthiness of a value that is [None] or a [str]. *)
Definition str_truthy (o : option string) : bool :=
  match o with Some s => negb (String.eqb s "") | None => false end.

(** [d[k] = v] on a dict kept as an association list in insertion order:
    an existing key keeps its place, a new key goes last. *)
Fixpoint dict_set {V : Type} (d : list (string * V)) (k : string) (v : V)
  : list (string * V) :=
  match d with
  | [] => [(k, v)]
  | (k', v') :: d' =>
      if String.eqb k k' then (k, v) :: d' else (k', v') :: dict_set d' k v
  end.

(** [d.get(k)] *)
Fixpoint dict_get {V : Type} (d : list (string * V)) (k : string) : option V :=
  match d with
  | [] => None
  | (k', v') :: d' => if String.eqb k k' then Some v' else dict_get d' k
  end.

End Py.

(* ------------------------------------------------------------------ *)
(** ** Position formatter: [normalize_deg], [zodiac_sign_and_pos],
       [round_to_arcminute] *)

Module Zodiac.
Import Float64 Py.
Local Open Scope string_scope.

Definition SIGNS : list string :=
  ["Aries"; "Taurus"; "Gemini"; "Cancer"; "Leo"; "Virgo";
   "Libra"; "Scorpio"; "Sagittarius"; "Capricorn"; "Aquarius"; "Pisces"].

(** [return deg % 360.0] *)
Definition normalize_deg (deg : Q) : Q := py_mod deg 360.

(** [lon = normalize_deg(ecl_lon_deg)]; [sign_index = int(lon // 30)];
    [sign = SIGNS[sign_index]]; [pos_in_sign = lon - sign_index * 30.0]. *)
Definition zodiac_sign_and_pos (ecl_lon_deg : Q) : result (string * Q) :=
  let lon := normalize_deg ecl_lon_deg in
  let sign_index := py_int (py_floordiv lon 30) in
  sign <- py_index SIGNS sign_index ;;
  let pos_in_sign := fsub lon (fmul (inject_Z sign_index) 30) in
  Ok (sign, pos_in_sign).

(** [d = int(pos_in_sign)]; [m = int(round((pos_in_sign - d) * 60.0))];
    then the roll-over of [m == 60] and the clamp of [d == 30]. *)
Definition round_to_arcminute (pos_in_sign : Q) : Z * Z :=
  let d := py_int pos_in_sign in
  let m := rhe (fmul (fsub pos_in_sign (inject_Z d)) 60) in
  if (m =? 60)%Z then
    let d := (d + 1)%Z in
    let m := 0%Z in
    if (d =? 30)%Z then (29%Z, 59%Z) else (d, m)
  else (d, m).

End Zodiac.

(* ------------------------------------------------------------------ *)
(** ** JSON values, as [requests]' [r.json()] and geopy's [loc.raw] give them *)

Module Json.
Import Float64 Py.
Local Open Scope string_scope.
Local Set Warnings "-register-all".

Inductive json : Type :=
| JNull
| JBool (b : bool)
| JNum (q : Q)
| JStr (s : string)
| JArr (l : list json)
| JObj (kv : list (string * json)).

(** Python truthiness of a decoded JSON value. *)
Definition json_truthy (v : json) : bool :=
  match v with
  | JNull => false
  | JBool b => b
  | JNum q => negb (qeqb q 0)
  | JStr s => negb (String.eqb s "")
  | JArr l => match l with [] => false | _ => true end
  | JObj kv => match kv with [] => false | _ => true end
  end.

(** [v.get(k)]: [None] for a missing key; [AttributeError] unless [v] is a dict. *)
Definition json_get (v : json) (k : string) : result (option json) :=
  match v with
  | JObj kv => Ok (dict_get kv k)
  | _ => Raise (LibraryError "object has no attribute 'get'")
  end.

(** [v[k]] with a string key. *)
Definition json_getitem (v : json) (k : string) : result json :=
  match v with
  | JObj kv => match dict_get kv k with Some x => Ok x | None => Raise (KeyError k) end
  | _ => Raise (LibraryError "indices must be integers")
  end.

(** [v[i]] with an integer index ([str] indexing, which only a malformed
    answer could reach, is folded into the [TypeError] case: the caller
    turns every such error into the same 502). *)
Definition json_index (v : json) (i : Z) : result json :=
  match v with
  | JArr l => py_index l i
  | JObj _ => Raise (KeyError "0")
  | _ => Raise (LibraryError "object is not subscriptable")
  end.

End Json.

(* ------------------------------------------------------------------ *)
(** ** [posixpath] and the module start-up (lines 13-20 and 30) *)

Module Startup.
Local Open Scope string_scope.

Definition slash : Ascii.ascii := "/"%char.

Definition starts_with_slash (p : string) : bool :=
  match p with String c _ => Ascii.eqb c slash | EmptyString => false end.

Fixpoint ends_with_slash (p : string) : bool :=
  match p with
  | EmptyString => false
  | String c EmptyString => Ascii.eqb c slash
  | String _ r => ends_with_slash r
  end.

(** [p.split('/')] *)
Fixpoint split_slash (p : string) : list string :=
  match p with
  | EmptyString => [""]
  | String c r =>
      let parts := split_slash r in
      if Ascii.eqb c slash then "" :: parts
      else match parts with
           | s :: rest => String c s :: rest
           | [] => [String c EmptyString]
           end
  end.

(** [sep.join(parts)] *)
Fixpoint join_with (sep : string) (parts : list string) : string :=
  match parts with
  | [] => ""
  | [s] => s
  | s :: rest => s ++ sep ++ join_with sep rest
  end.

(** [posixpath.join(a, b)] *)
Definition path_join (a b : string) : string :=
  if starts_with_slash b then b
  else if String.eqb a "" || ends_with_slash a then a ++ b
  else a ++ "/" ++ b.


Fixpoint drop_while (f : Ascii.ascii -> bool) (l : list Ascii.ascii) : list Ascii.ascii :=
  match l with
  | [] => []
  | c :: r => if f c then drop_while f r else l
  end.

Definition is_slash (c : Ascii.ascii) : bool := Ascii.eqb c slash.

(** [posixpath.dirname(p)]: [head = p[:p.rfind('/') + 1]], then
    [head.rstrip('/')] unless [head] is empty or all slashes. *)
Definition dirname (p : string) : string :=
  let head := rev (drop_while (fun c => negb (is_slash c)) (rev (list_ascii_of_string p))) in
  if (match head with [] => false | _ => true end) && negb (forallb is_slash head)
  then string_of_list_ascii (rev (drop_while is_slash (rev head)))
  else string_of_list_ascii head.

(** One step of the loop of [posixpath.normpath]; [new_comps] is kept
    reversed (its head is [new_comps[-1]]). *)
Definition normpath_step (initial_slashes : nat) (new_comps : list string) (comp : string)
  : list string :=
  if String.eqb comp "" || String.eqb comp "." then new_comps
  else if negb (String.eqb comp "..")
          || ((initial_slashes =? 0)%nat && match new_comps with [] => true | _ => false end)
          || match new_comps with top :: _ => String.eqb top ".." | [] => false end
  then comp :: new_comps
  else match new_comps with _ :: rest => rest | [] => [] end.

(** [posixpath.normpath(path)] *)
Definition normpath (path : string) : string :=
  if String.eqb path "" then "." else
  let initial_slashes :=
    if starts_with_slash path then
      (if String.prefix "//" path && negb (String.prefix "///" path) then 2%nat else 1%nat)
    else 0%nat in
  let comps := rev (fold_left (normpath_step initial_slashes) (split_slash path) []) in
  let path := join_with "/" comps in
  let path :=
    match initial_slashes with
    | 0%nat => path
    | 1%nat => "/" ++ path
    | _ => "//" ++ path
    end in
  if String.eqb path "" then "." else path.

(** [os.path.abspath(p)] for a process whose working directory is [cwd]. *)
Definition abspath (cwd p : string) : string :=
  normpath (if starts_with_slash p then p else path_join cwd p).

Definition py_bool_str (b : bool) : string := if b then "True" else "False".

(** What importing the module does to the ephemeris configuration: the
    arguments of the successive [swe.set_ephe_path] calls, and what it
    prints.  [file] is [__file__], [cwd] the working directory and
    [path_exists] stands for [os.path.exists]. *)
Record module_state : Type := {
  ephe_path_calls : list string;
  stdout_lines : list string
}.

Definition module_init (cwd : string) (path_exists : string -> bool) (file : string)
  : module_state :=
  let BASE_DIR := dirname (abspath cwd file) in
  let EPHE_PATH := path_join BASE_DIR "ephe" in
  let calls := [EPHE_PATH] in                            (* swe.set_ephe_path(EPHE_PATH) *)
  let out := ["EPHE_PATH = " ++ EPHE_PATH;
              "EPHE exists? " ++ py_bool_str (path_exists EPHE_PATH);
              "seas exists? " ++ py_bool_str (path_exists (path_join EPHE_PATH "seas_18.se1"))] in
  let calls := app calls ["./ephe"] in                    (* swe.set_ephe_path("./ephe") *)
  {| ephe_path_calls := calls; stdout_lines := out |}.

(** The path in force after start-up: the last one set. *)
Definition current_ephe_path (st : module_state) : string := last (ephe_path_calls st) "".

(** The file the Swiss Ephemeris opens for the data file [fname] when its
    path is [path]: [path/fname], resolved by the OS against the working
    directory [cwd] of the process at the time of the call. *)
Definition ephe_file (cwd path fname : string) : string := abspath cwd (path_join path fname).

End Startup.

(* ------------------------------------------------------------------ *)
(** ** Swiss Ephemeris constants of [pyswisseph] *)

Module Swe.
Local Open Scope string_scope.

Definition SUN : Z := 0.
Definition MOON : Z := 1.
Definition MERCURY : Z := 2.
Definition VENUS : Z := 3.
Definition MARS : Z := 4.
Definition JUPITER : Z := 5.
Definition SATURN : Z := 6.
Definition URANUS : Z := 7.
Definition NEPTUNE : Z := 8.
Definition PLUTO : Z := 9.
Definition MEAN_NODE : Z := 10.
Definition ECL_NUT : Z := -1.
Definition FLG_SWIEPH : Z := 2.
Definition FLG_SPEED : Z := 256.

End Swe.

(* ------------------------------------------------------------------ *)
(** ** The service: helpers with library calls, and the [/chart] handler

    The library calls ([swisseph], geopy's Nominatim client, [requests],
    [timezonefinder], [zoneinfo]) are the variables of the section: each
    returns its value or raises.  After the section every definition takes
    the calls it makes as arguments. *)

Module App.
Import Float64 Py Zodiac Json Swe.
Local Open Scope string_scope.

(** [HOUSE_SYSTEM = b'P'] and [FLAGS = swe.FLG_SWIEPH | swe.FLG_SPEED]. *)
Definition HOUSE_SYSTEM : string := "P".
Definition FLAGS : Z := Z.lor FLG_SWIEPH FLG_SPEED.
Definition NODE_BODY : Z := MEAN_NODE.

(** [PLANETS], in its insertion order. *)
Definition PLANETS : list (string * Z) :=
  [("Sun", SUN); ("Moon", MOON); ("Mercury", MERCURY); ("Venus", VENUS);
   ("Mars", MARS); ("Jupiter", JUPITER); ("Saturn", SATURN); ("Uranus", URANUS);
   ("Neptune", NEPTUNE); ("Pluto", PLUTO); ("Node(M)", NODE_BODY)].

(** A geopy [Location]: always truthy, so [if loc:] only tests [None]. *)
Record location : Type := {
  loc_latitude : Q;
  loc_longitude : Q;
  loc_raw : json
}.

(** Values of the [params] dict of [requests.get]. *)
Inductive param : Type :=
| PStr (s : string)
| PInt (n : Z).

(** A [requests] response: its status code, what [r.json()] gives (or
    raises), and [str()] of the [HTTPError] that [raise_for_status] raises. *)
Record response : Type := {
  status_code : Z;
  resp_json : result json;
  http_error_text : string
}.

(** The network calls of [geocode_location], in the order they are made. *)
Inductive call : Type :=
| CallNominatim (query : string)
| CallOpenMeteo (url : string) (params : list (string * param)) (timeout : Z).

(** [datetime] values: the fields the handler reads, and [isoformat()]. *)
Record datetime : Type := {
  dt_year : Z; dt_month : Z; dt_day : Z;
  dt_hour : Z; dt_minute : Z; dt_second : Z;
  dt_isoformat : string
}.

(** The validated body of a [/chart] request. *)
Record ChartRequest : Type := {
  req_year : Z; req_month : Z; req_day : Z; req_hour : Z; req_minute : Z;
  req_location : string;
  req_country : option string
}.

Record planet_out : Type := {
  p_sign : string; p_deg : Z; p_min : Z; p_lon_deg : Q; p_retrograde : bool; p_house : Z
}.

Record cusp_out : Type := {
  c_house : Z; c_sign : string; c_deg : Z; c_min : Z; c_lon_deg : Q
}.

Record angle_out : Type := {
  a_sign : string; a_deg : Z; a_min : Z; a_lon_deg : Q
}.

Record chart_input : Type := {
  location_query : string;
  geocoded_lat : Q; geocoded_lon : Q; geocoded_raw : json;
  timezone : string;
  local_datetime : string;
  utc_datetime : string;
  julian_day_ut : Q
}.

Record chart_out : Type := {
  settings_locked : list (string * string);
  input : chart_input;
  angle_ASC : angle_out;
  angle_MC : angle_out;
  house_cusps : list cusp_out;
  planets : list (string * planet_out)
}.

Definition OPEN_METEO_URL : string := "https://geocoding-api.open-meteo.com/v1/search".

Definition LOCATION_NOT_FOUND : string := "Location not found. Try 'City, State, Country'.".

Definition TIMEZONE_UNRESOLVED : string := "Could not resolve timezone for this location.".

(** The [params] of the Open-Meteo request for [query]. *)
Definition om_params (query : string) : list (string * param) :=
  [("name", PStr query); ("count", PInt 1); ("language", PStr "en"); ("format", PStr "json")].

(** [r.raise_for_status()] *)
Definition raise_for_status (r : response) : result unit :=
  if (400 <=? status_code r)%Z && (status_code r <? 600)%Z then Raise (LibraryError (http_error_text r))
  else Ok tt.

Section Service.

(** [swe.calc_ut(jd, body, flags)]: [(xx, retflag)]. *)
Variable calc_ut : Q -> Z -> Z -> result (list Q * Z).
(** [swe.house_pos(armc, geolat, eps, (lon, lat), hsys)] *)
Variable house_pos : Q -> Q -> Q -> Q * Q -> string -> result Q.
(** [swe.houses_ex(jd, lat, lon, hsys)]: [(cusps, ascmc)]. *)
Variable houses_ex : Q -> Q -> Q -> string -> result (list Q * list Q).
(** [swe.julday(year, month, day, hour)] *)
Variable julday : Z -> Z -> Z -> Q -> result Q.
(** [geolocator.geocode(query, addressdetails=True)] *)
Variable nominatim_geocode : string -> result (option location).
(** [requests.get(url, params=..., timeout=...)] *)
Variable requests_get : string -> list (string * param) -> Z -> result response.
(** [float(s)] on a [str] *)
Variable parse_float : string -> result Q.
(** [tf.timezone_at(lat=, lng=)] and [tf.closest_timezone_at(lat=, lng=)] *)
Variable timezone_at : Q -> Q -> result (option string).
Variable closest_timezone_at : Q -> Q -> result (option string).
(** [ZoneInfo(name)], [import tzdata], [datetime(..., tzinfo=tz)] and
    [dt.astimezone(ZoneInfo("UTC"))] *)
Variable tzinfo : Type.
Variable ZoneInfo : string -> result tzinfo.
Variable import_tzdata : result unit.
Variable make_datetime : Z -> Z -> Z -> Z -> Z -> tzinfo -> result datetime.
Variable astimezone_utc : datetime -> result datetime.

(** [float(x)] on a decoded JSON value. *)
Definition py_float (v : json) : result Q :=
  match v with
  | JNum q => Ok (rnd64 q)
  | JBool b => Ok (if b then 1 else 0)
  | JStr s => parse_float s
  | _ => Raise (LibraryError "float() argument must be a string or a real number")
  end.

(** Body of the [try] of the Open-Meteo fallback, after [requests.get]. *)
Definition open_meteo_answer (r : response) : result (Q * Q * json) :=
  _ <- raise_for_status r ;;
  data <- resp_json r ;;
  got <- json_get data "results" ;;
  let results := match got with Some v => if json_truthy v then v else JArr [] | None => JArr [] end in
  if negb (json_truthy results) then Raise (HTTPException 404 LOCATION_NOT_FOUND)
  else
    best <- json_index results 0 ;;
    lat <- (x <- json_getitem best "latitude" ;; py_float x) ;;
    lon <- (x <- json_getitem best "longitude" ;; py_float x) ;;
    Ok (lat, lon, JObj [("source", JStr "open-meteo"); ("raw", best)]).

(** [geocode_location(query)]: the calls made, and the outcome. *)
Definition geocode_location (query : string) : list call * result (Q * Q * json) :=
  match nominatim_geocode query with
  | Ok (Some loc) =>
      ([CallNominatim query], Ok (loc_latitude loc, loc_longitude loc, loc_raw loc))
  | _ =>                                         (* None, or [except Exception: pass] *)
      ([CallNominatim query; CallOpenMeteo OPEN_METEO_URL (om_params query) 10],
       match (r <- requests_get OPEN_METEO_URL (om_params query) 10 ;; open_meteo_answer r) with
       | Ok v => Ok v
       | Raise (HTTPException c d) => Raise (HTTPException c d)      (* except HTTPException: raise *)
       | Raise e => Raise (HTTPException 502 ("Geocoding error: " ++ exn_str e))
       end)
  end.

(** [resolve_timezone_name(lat, lon)] *)
Definition resolve_timezone_name (lat lon : Q) : result string :=
  tz_name <- timezone_at lat lon ;;
  tz_name <- (if negb (str_truthy tz_name) then closest_timezone_at lat lon else Ok tz_name) ;;
  if negb (str_truthy tz_name) then Raise (HTTPException 422 TIMEZONE_UNRESOLVED)
  else match tz_name with Some s => Ok s | None => Raise (HTTPException 422 TIMEZONE_UNRESOLVED) end.

(** [local_to_utc(...)]: on failure of [ZoneInfo], [import tzdata] and retry. *)
Definition local_to_utc (year month day hour minute : Z) (tz_name : string)
  : result (datetime * datetime) :=
  tz <- (match ZoneInfo tz_name with
         | Ok tz => Ok tz
         | Raise _ => _ <- import_tzdata ;; ZoneInfo tz_name
         end) ;;
  local_dt <- make_datetime year month day hour minute tz ;;
  utc_dt <- astimezone_utc local_dt ;;
  Ok (local_dt, utc_dt).

(** [julian_day_ut(utc_dt)] *)
Definition julian_day_ut_of (utc_dt : datetime) : result Q :=
  let ut_hours := fadd (fadd (inject_Z (dt_hour utc_dt)) (fdiv (inject_Z (dt_minute utc_dt)) 60))
                       (fdiv (inject_Z (dt_second utc_dt)) 3600) in
  julday (dt_year utc_dt) (dt_month utc_dt) (dt_day utc_dt) ut_hours.

(** [house_for_longitude(jd_ut, lat, lon, ecl_lon, houses, ascmc)] *)
Definition house_for_longitude (jd_ut lat lon ecl_lon : Q) (houses ascmc : list Q) : result Z :=
  obliq <- (if (9 <? Z.of_nat (length ascmc))%Z then o <- py_index ascmc 9 ;; Ok (Some o)
            else Ok None) ;;
  obliq <- (match obliq with
            | Some o => Ok o
            | None => r <- calc_ut jd_ut ECL_NUT FLAGS ;; py_index (fst r) 0
            end) ;;
  armc <- py_index ascmc 2 ;;
  hpos <- house_pos armc lat obliq (ecl_lon, 0) HOUSE_SYSTEM ;;
  let h := Qfloor hpos in                        (* int(math.floor(hpos)) *)
  let h := if (h <? 1)%Z then 1%Z else h in
  let h := if (12 <? h)%Z then 12%Z else h in
  Ok h.

(** The loop [for name, body in PLANETS.items()] of [chart]. *)
Fixpoint planets_loop (jd_ut lat lon : Q) (houses ascmc : list Q) (items : list (string * Z))
  (planets_out : list (string * planet_out)) : result (list (string * planet_out)) :=
  match items with
  | [] => Ok planets_out
  | (name, body) :: rest =>
      xx <- calc_ut jd_ut body FLAGS ;;
      let res := fst xx in
      res0 <- py_index res 0 ;;
      let ecl_lon := normalize_deg res0 in
      speed_lon <- py_index res 3 ;;
      let retro := qltb speed_lon 0 in
      '(sign, pos_in_sign) <- zodiac_sign_and_pos ecl_lon ;;
      let '(d, m) := round_to_arcminute pos_in_sign in
      house_num <- house_for_longitude jd_ut lat lon ecl_lon houses ascmc ;;
      planets_loop jd_ut lat lon houses ascmc rest
        (dict_set planets_out name
           {| p_sign := sign; p_deg := d; p_min := m; p_lon_deg := ecl_lon;
              p_retrograde := retro; p_house := house_num |})
  end.

(** The loop [for i, cusp_lon in enumerate(cusp_list, start=1)] of [chart]. *)
Fixpoint cusps_loop (i : Z) (cusp_list : list Q) : result (list cusp_out) :=
  match cusp_list with
  | [] => Ok []
  | cusp_lon :: rest =>
      let cusp_lon := normalize_deg cusp_lon in
      '(hs, hp) <- zodiac_sign_and_pos cusp_lon ;;
      let '(hd, hm) := round_to_arcminute hp in
      tl_out <- cusps_loop (i + 1) rest ;;
      Ok ({| c_house := i; c_sign := hs; c_deg := hd; c_min := hm; c_lon_deg := cusp_lon |}
          :: tl_out)
  end.

(** [chart(req)], the [/chart] handler. *)
Definition chart (req : ChartRequest) : result chart_out :=
  '(lat, lon, raw) <- snd (geocode_location (req_location req)) ;;
  tz_name <- resolve_timezone_name lat lon ;;
  '(local_dt, utc_dt) <- local_to_utc (req_year req) (req_month req) (req_day req)
                                       (req_hour req) (req_minute req) tz_name ;;
  jd_ut <- julian_day_ut_of utc_dt ;;
  '(houses, ascmc) <- houses_ex jd_ut lat lon HOUSE_SYSTEM ;;
  asc <- py_index ascmc 0 ;;
  mc <- py_index ascmc 1 ;;
  planets_out <- planets_loop jd_ut lat lon houses ascmc PLANETS [] ;;
  '(asc_sign, asc_pos) <- zodiac_sign_and_pos asc ;;
  let '(asc_d, asc_m) := round_to_arcminute asc_pos in
  '(mc_sign, mc_pos) <- zodiac_sign_and_pos mc ;;
  let '(mc_d, mc_m) := round_to_arcminute mc_pos in
  let cusp_list := if (Z.of_nat (length houses) =? 12)%Z then houses else skipn 1 houses in
  cusps_out <- cusps_loop 1 cusp_list ;;
  Ok {| settings_locked := [("zodiac", "tropical"); ("houses", "placidus");
                            ("node", "mean"); ("ephemeris", "swiss_ephemeris")];
        input := {| location_query := req_location req;
                    geocoded_lat := lat; geocoded_lon := lon; geocoded_raw := raw;
                    timezone := tz_name;
                    local_datetime := dt_isoformat local_dt;
                    utc_datetime := dt_isoformat utc_dt;
                    julian_day_ut := jd_ut |};
        angle_ASC := {| a_sign := asc_sign; a_deg := asc_d; a_min := asc_m;
                        a_lon_deg := normalize_deg asc |};
        angle_MC := {| a_sign := mc_sign; a_deg := mc_d; a_min := mc_m;
                       a_lon_deg := normalize_deg mc |};
        house_cusps := cusps_out;
        planets := planets_out |}.

End Service.

End App.

(* ------------------------------------------------------------------ *)
(** ** A concrete run: fixed library answers for one request *)

Module Stub.
Import Float64 Py Json App.
Local Open Scope string_scope.

(** Body [b] at longitude [30 b + 5], all direct except the Sun. *)
Definition calc_ut (jd : Q) (body flags : Z) : result (list Q * Z) :=
  Ok ([inject_Z (30 * body + 5); 0; 1; (if (body =? 0)%Z then -1 # 2 else 1 # 1); 0; 0], flags).

Definition house_pos (armc lat eps : Q) (xpin : Q * Q) (hsys : string) : result Q :=
  Ok (132 # 10).

(** A 13-entry cusp list (index 0 unused) and ten [ascmc] values. *)
Definition houses_ex (jd lat lon : Q) (hsys : string) : result (list Q * list Q) :=
  Ok (map (fun k => inject_Z (30 * Z.of_nat k + 12)) (seq 0 13),
      [100; 200; 10; 0; 0; 0; 0; 0; 0; 23]).

Definition julday (y m d : Z) (h : Q) : result Q := Ok 2451545.

Definition nominatim_geocode (q : string) : result (option location) :=
  Raise (LibraryError "Service timed out").

Definition requests_get (url : string) (params : list (string * param)) (timeout : Z)
  : result response :=
  Ok {| status_code := 200;
        resp_json := Ok (JObj [("results", JArr [JObj [("latitude", JNum (3841 # 100));
                                                         ("longitude", JNum (-8244 # 100))]])]);
        http_error_text := "" |}.

Definition parse_float (s : string) : result Q := Raise (ValueError "could not convert string to float").

Definition timezone_at (lat lon : Q) : result (option string) := Ok (Some "America/New_York").

Definition closest_timezone_at (lat lon : Q) : result (option string) := Ok None.

Definition ZoneInfo (name : string) : result unit := Ok tt.

Definition import_tzdata : result unit := Ok tt.

Definition make_datetime (y mo d h mi : Z) (tz : unit) : result datetime :=
  Ok {| dt_year := y; dt_month := mo; dt_day := d; dt_hour := h; dt_minute := mi;
        dt_second := 0; dt_isoformat := "2000-01-01T12:00:00" |}.

Definition astimezone_utc (dt : datetime) : result datetime := Ok dt.

Definition req0 : ChartRequest :=
  {| req_year := 2000; req_month := 1; req_day := 1; req_hour := 12; req_minute := 0;
     req_location := "Huntington, WV, USA"; req_country := None |}.

Definition chart0 : ChartRequest -> result chart_out :=
  chart calc_ut house_pos houses_ex julday nominatim_geocode requests_get parse_float
        timezone_at closest_timezone_at unit ZoneInfo import_tzdata make_datetime astimezone_utc.

End Stub.

Module Float64Facts.
Import Float64.
Open Scope Q_scope.

Lemma qltb_spec (x y : Q) : qltb x y = true <-> x < y.
Proof.
  unfold qltb. rewrite Qlt_alt. destruct (x ?= y); split; congruence.
Qed.

Lemma qleb_spec (x y : Q) : qleb x y = true <-> x <= y.
Proof.
  unfold qleb. rewrite Qle_alt. destruct (x ?= y); split; congruence.
Qed.

Lemma qeqb_spec (x y : Q) : qeqb x y = true <-> x == y.
Proof.
  unfold qeqb. rewrite Qeq_alt. destruct (x ?= y); split; congruence.
Qed.

Lemma pow2_pos (e : Z) : 0 < pow2 e.
Proof. apply Qpower_0_lt. reflexivity. Qed.

Lemma pow2_plus (a b : Z) : pow2 (a + b) == pow2 a * pow2 b.
Proof. unfold pow2. apply Qpower_plus. discriminate. Qed.

Lemma pow2_Z (e : Z) : (0 <= e)%Z -> pow2 e == inject_Z (2 ^ e).
Proof. intros He. unfold pow2. rewrite Zpower_Qpower by exact He. reflexivity. Qed.

Lemma pow2_lt_inv (a b : Z) : pow2 a < pow2 b -> (a < b)%Z.
Proof. intros H. apply (Qpower_lt_compat_l_inv (2#1)); [exact H | reflexivity]. Qed.

Lemma pow2_le_mono (a b : Z) : (a <= b)%Z -> pow2 a <= pow2 b.
Proof. intros H. apply Qpower_le_compat_l; [exact H | discriminate]. Qed.

Lemma pow2_split (a b : Z) : pow2 a == pow2 (a - b) * pow2 b.
Proof. rewrite <- pow2_plus. replace (a - b + b)%Z with a by lia. reflexivity. Qed.

(** [x / 2^e] and [x * 2^(-e)] agree. *)
Lemma div_pow2 (x : Q) (e : Z) : x / pow2 e == x * pow2 (- e).
Proof.
  unfold Qdiv, pow2. rewrite Qpower_opp. reflexivity.
Qed.

Lemma flog2_spec (a : Q) :
  0 < a -> pow2 (flog2 a) <= a /\ a < pow2 (flog2 a + 1).
Proof.
  destruct a as [n d]. intros Ha.
  assert (Hn : (0 < n)%Z).
  { unfold Qlt in Ha. simpl in Ha. lia. }
  unfold flog2; simpl Qnum; simpl Qden.
  set (ln := Z.log2 n). set (ld := Z.log2 (Zpos d)).
  assert (Hln := Z.log2_spec n Hn). fold ln in Hln.
  assert (Hld := Z.log2_spec (Zpos d) eq_refl). fold ld in Hld.
  assert (Hln0 : (0 <= ln)%Z) by apply Z.log2_nonneg.
  assert (Hld0 : (0 <= ld)%Z) by apply Z.log2_nonneg.
  rewrite Z.pow_succ_r in Hln, Hld by assumption.
  assert (Hlow : pow2 (ln - ld - 1) < n # d).
  { replace (ln - ld - 1)%Z with (ln - (ld + 1))%Z by lia.
    unfold pow2. rewrite Qpower_minus by discriminate.
    change (2 # 1) with (inject_Z 2).
    rewrite <- !Zpower_Qpower by lia.
    apply Qlt_shift_div_r.
    - unfold Qlt; simpl. pose proof (Z.pow_pos_nonneg 2 (ld + 1)). lia.
    - rewrite Z.pow_add_r by lia.
      unfold Qlt, Qmult; simpl. rewrite Pos2Z.inj_mul. nia. }
  assert (Hup : n # d < pow2 (ln - ld + 1)).
  { replace (ln - ld + 1)%Z with ((ln + 1) - ld)%Z by lia.
    unfold pow2. rewrite Qpower_minus by discriminate.
    change (2 # 1) with (inject_Z 2).
    rewrite <- !Zpower_Qpower by lia.
    apply Qlt_shift_div_l.
    - unfold Qlt; simpl. pose proof (Z.pow_pos_nonneg 2 ld). lia.
    - rewrite Z.pow_add_r by lia.
      unfold Qlt, Qmult; simpl. rewrite Pos2Z.inj_mul. nia. }
  destruct (qltb (n # d) (pow2 (ln - ld))) eqn:E.
  - apply qltb_spec in E. split.
    + apply Qlt_le_weak. exact Hlow.
    + replace (ln - ld - 1 + 1)%Z with (ln - ld)%Z by lia. exact E.
  - assert (E' : ~ (n # d) < pow2 (ln - ld)).
    { intros H. apply qltb_spec in H. congruence. }
    split.
    + apply Qnot_lt_le. exact E'.
    + exact Hup.
Qed.


(** *** Round half to even *)

Lemma frac_bounds (q : Q) : 0 <= q - inject_Z (Qfloor q) /\ q - inject_Z (Qfloor q) < 1.
Proof.
  pose proof (Qfloor_le q). pose proof (Qlt_floor q).
  rewrite inject_Z_plus in H0. split.
  - apply (Qplus_le_l _ _ (inject_Z (Qfloor q))). ring_simplify. exact H.
  - apply (Qplus_lt_l _ _ (inject_Z (Qfloor q))). ring_simplify.
    change (inject_Z 1) with 1 in H0. exact H0.
Qed.

Lemma rhe_cases (q : Q) :
  (rhe q = Qfloor q /\ q - inject_Z (Qfloor q) <= 1 # 2) \/
  (rhe q = (Qfloor q + 1)%Z /\ 1 # 2 <= q - inject_Z (Qfloor q)).
Proof.
  unfold rhe; cbv zeta.
  destruct (Qcompare_spec (q - inject_Z (Qfloor q)) (1 # 2)) as [H|H|H].
  - destruct (Z.even (Qfloor q)); [left|right]; split; try reflexivity;
      rewrite H; apply Qle_refl.
  - left. split; [reflexivity | apply Qlt_le_weak; exact H].
  - right. split; [reflexivity | apply Qlt_le_weak; exact H].
Qed.

Lemma rhe_half (q : Q) :
  q - inject_Z (Qfloor q) == 1 # 2 ->
  rhe q = if Z.even (Qfloor q) then Qfloor q else (Qfloor q + 1)%Z.
Proof.
  intros H. unfold rhe; cbv zeta.
  destruct (Qcompare_spec (q - inject_Z (Qfloor q)) (1 # 2)) as [H'|H'|H'].
  - reflexivity.
  - rewrite H in H'. apply Qlt_irrefl in H'. contradiction.
  - rewrite H in H'. apply Qlt_irrefl in H'. contradiction.
Qed.

Lemma rhe_comp (x y : Q) : x == y -> rhe x = rhe y.
Proof.
  intros H. unfold rhe; cbv zeta.
  assert (Hf : Qfloor x = Qfloor y) by (apply Qfloor_comp; exact H).
  rewrite Hf.
  assert (Hc : (x - inject_Z (Qfloor y) ?= 1 # 2) = (y - inject_Z (Qfloor y) ?= 1 # 2)).
  { apply Qcompare_comp; [rewrite H |]; reflexivity. }
  rewrite Hc. reflexivity.
Qed.

Lemma rhe_Z (z : Z) : rhe (inject_Z z) = z.
Proof.
  pose proof (Qfloor_Z z) as Hz.
  destruct (rhe_cases (inject_Z z)) as [[H _]|[_ H]]; rewrite Hz in H.
  - exact H.
  - exfalso. assert (E : inject_Z z - inject_Z z == 0) by ring.
    rewrite E in H. unfold Qle in H; simpl in H; lia.
Qed.

Lemma rhe_mono (x y : Q) : x <= y -> (rhe x <= rhe y)%Z.
Proof.
  intros Hxy.
  assert (Hf := Qfloor_resp_le x y Hxy).
  destruct (Z.eq_dec (Qfloor x) (Qfloor y)) as [E|E].
  - destruct (rhe_cases x) as [[Hx Rx]|[Hx Rx]];
    destruct (rhe_cases y) as [[Hy Ry]|[Hy Ry]]; try lia.
    (* [x] rounds up, [y] rounds down: both are exact halves *)
    assert (Rx' : x - inject_Z (Qfloor x) == 1 # 2).
    { apply Qle_antisym; [| exact Rx].
      apply (Qle_trans _ (y - inject_Z (Qfloor y))); [| exact Ry].
      rewrite E. apply Qplus_le_l. exact Hxy. }
    assert (Ry' : y - inject_Z (Qfloor y) == 1 # 2).
    { apply Qle_antisym; [exact Ry |].
      apply (Qle_trans _ (x - inject_Z (Qfloor x))); [exact Rx |].
      rewrite E. apply Qplus_le_l. exact Hxy. }
    rewrite (rhe_half x Rx'), (rhe_half y Ry'), E. lia.
  - destruct (rhe_cases x) as [[Hx _]|[Hx _]];
    destruct (rhe_cases y) as [[Hy _]|[Hy _]]; lia.
Qed.

(** *** Exponents *)

Lemma Qabs_pos_of_nonzero (x : Q) : ~ x == 0 -> 0 < Qabs x.
Proof.
  destruct x as [[|n|n] d]; intros H; unfold Qlt; simpl.
  - exfalso. apply H. reflexivity.
  - lia.
  - lia.
Qed.

Lemma fexp_ge (x : Q) : (-1074 <= fexp x)%Z.
Proof. unfold fexp. lia. Qed.

Lemma fexp_le (x : Q) (g : Z) :
  ~ x == 0 -> Qabs x < pow2 (g + 53) -> (-1074 <= g)%Z -> (fexp x <= g)%Z.
Proof.
  intros Hx Hlt Hg.
  destruct (flog2_spec (Qabs x) (Qabs_pos_of_nonzero x Hx)) as [Hlo _].
  assert (H := pow2_lt_inv _ _ (Qle_lt_trans _ _ _ Hlo Hlt)).
  unfold fexp. lia.
Qed.

Lemma fexp_bound (x : Q) : ~ x == 0 -> Qabs x < pow2 (fexp x + 53).
Proof.
  intros Hx.
  destruct (flog2_spec (Qabs x) (Qabs_pos_of_nonzero x Hx)) as [_ Hhi].
  apply (Qlt_le_trans _ _ _ Hhi). apply pow2_le_mono. unfold fexp. lia.
Qed.


(** *** Rounding *)

Lemma rnd64_zero (x : Q) : x == 0 -> rnd64 x = 0.
Proof.
  intros Hx. unfold rnd64. rewrite (Qred_complete x 0 Hx). reflexivity.
Qed.

Lemma rnd64_nonzero (x : Q) : ~ x == 0 ->
  rnd64 x = Qred (inject_Z (rhe (Qred x / pow2 (fexp (Qred x)))) * pow2 (fexp (Qred x))).
Proof.
  intros Hx. unfold rnd64; cbv zeta.
  destruct (qeqb (Qred x) 0) eqn:E; [| reflexivity].
  apply qeqb_spec in E. rewrite Qred_correct in E. contradiction.
Qed.

Lemma rnd64_comp (x y : Q) : x == y -> rnd64 x = rnd64 y.
Proof. intros H. unfold rnd64. rewrite (Qred_complete x y H). reflexivity. Qed.

Lemma pow2_nonzero (e : Z) : ~ pow2 e == 0.
Proof. intros H. pose proof (pow2_pos e) as P. rewrite H in P. discriminate P. Qed.

(** Dividing [N * 2^f] by [2^e], [e <= f], gives an integer. *)
Lemma div_pow2_int (N f e : Z) : (e <= f)%Z ->
  inject_Z N * pow2 f / pow2 e == inject_Z (N * 2 ^ (f - e)).
Proof.
  intros Hef. rewrite (pow2_split f e), (pow2_Z (f - e)) by lia.
  rewrite inject_Z_mult. field. apply pow2_nonzero.
Qed.

Lemma Qabs_scaled (N f : Z) : Qabs (inject_Z N * pow2 f) == inject_Z (Z.abs N) * pow2 f.
Proof.
  rewrite Qabs_Qmult, (Qabs_pos (pow2 f)) by (apply Qlt_le_weak, pow2_pos).
  reflexivity.
Qed.

Lemma scaled_lt (N f : Z) : (Z.abs N < 2 ^ 53)%Z ->
  Qabs (inject_Z N * pow2 f) < pow2 (f + 53).
Proof.
  intros HN. rewrite Qabs_scaled, Z.add_comm, pow2_plus, (pow2_Z 53) by lia.
  apply Qmult_lt_compat_r; [apply pow2_pos |]. rewrite <- Zlt_Qlt. exact HN.
Qed.

Lemma scaled_nonzero (N f : Z) : N <> 0%Z -> ~ inject_Z N * pow2 f == 0.
Proof.
  intros HN H. apply Qmult_integral in H as [H|H].
  - apply HN. unfold Qeq in H; simpl in H. lia.
  - apply (pow2_nonzero f H).
Qed.

(** Rounding leaves every binary64 value unchanged. *)
Lemma rnd64_repr (x : Q) : repr x -> rnd64 x = Qred x.
Proof.
  intros (N & f & Hx & HN & Hf).
  destruct (Z.eq_dec N 0) as [->|HN0].
  - assert (H0 : x == 0) by (rewrite Hx; ring).
    rewrite rnd64_zero by exact H0. rewrite (Qred_complete x 0 H0). reflexivity.
  - assert (Hnz : ~ x == 0) by (rewrite Hx; apply scaled_nonzero; exact HN0).
    rewrite rnd64_nonzero by exact Hnz.
    set (y := Qred x). assert (Hy : y == x) by apply Qred_correct.
    assert (He : (fexp y <= f)%Z).
    { apply fexp_le; [rewrite Hy; exact Hnz | | exact Hf].
      rewrite Hy, Hx. apply scaled_lt. exact HN. }
    set (e := fexp y) in *.
    assert (Hq : y / pow2 e == inject_Z (N * 2 ^ (f - e))).
    { rewrite Hy, Hx. apply div_pow2_int. exact He. }
    rewrite (rhe_comp _ _ Hq), rhe_Z.
    apply Qred_complete. rewrite inject_Z_mult, <- (pow2_Z (f - e)) by lia.
    rewrite Hx, <- Qmult_assoc, <- pow2_plus. replace (f - e + e)%Z with f by lia.
    reflexivity.
Qed.

Lemma rnd64_nonneg (x : Q) : 0 <= x -> 0 <= rnd64 x.
Proof.
  intros Hx. destruct (Qeq_dec x 0) as [H0|Hnz].
  - rewrite rnd64_zero by exact H0. apply Qle_refl.
  - rewrite rnd64_nonzero by exact Hnz. set (e := fexp (Qred x)). rewrite Qred_correct.
    apply Qmult_le_0_compat; [| apply Qlt_le_weak, pow2_pos].
    change 0 with (inject_Z 0). rewrite <- Zle_Qle, <- (rhe_Z 0).
    apply rhe_mono. rewrite Qred_correct. apply Qle_shift_div_l; [apply pow2_pos |].
    rewrite Qmult_0_l. exact Hx.
Qed.

(** Rounding a value below a binary64 value [c] does not go past [c]. *)
Lemma rnd64_le (x c : Q) : 0 <= x -> x <= c -> repr c -> rnd64 x <= c.
Proof.
  intros Hx Hxc (N & f & Hc & HN & Hf).
  destruct (Qeq_dec x 0) as [H0|Hnz].
  - rewrite rnd64_zero by exact H0. apply (Qle_trans _ x); [rewrite H0; apply Qle_refl | exact Hxc].
  - rewrite rnd64_nonzero by exact Hnz.
    set (y := Qred x). assert (Hy : y == x) by apply Qred_correct.
    assert (Hpos : 0 < x) by (apply Qle_lteq in Hx as [H|H]; [exact H | symmetry in H; contradiction]).
    assert (He : (fexp y <= f)%Z).
    { apply fexp_le; [rewrite Hy; exact Hnz | | exact Hf].
      rewrite Hy, (Qabs_pos x) by exact Hx.
      apply (Qle_lt_trans _ c); [exact Hxc |].
      apply (Qle_lt_trans _ (Qabs c)); [apply Qle_Qabs |].
      rewrite Hc. apply scaled_lt. exact HN. }
    set (e := fexp y) in *.
    assert (Hq : c / pow2 e == inject_Z (N * 2 ^ (f - e))).
    { rewrite Hc. apply div_pow2_int. exact He. }
    assert (Hr : (rhe (y / pow2 e) <= N * 2 ^ (f - e))%Z).
    { rewrite <- (rhe_Z (N * 2 ^ (f - e))). apply rhe_mono. rewrite <- Hq, Hy.
      unfold Qdiv. apply Qmult_le_compat_r; [exact Hxc |].
      apply Qinv_le_0_compat, Qlt_le_weak, pow2_pos. }
    rewrite Qred_correct.
    apply (Qle_trans _ (inject_Z (N * 2 ^ (f - e)) * pow2 e)).
    + apply Qmult_le_compat_r; [rewrite <- Zle_Qle; exact Hr | apply Qlt_le_weak, pow2_pos].
    + rewrite <- Hq. apply Qle_lteq. right. field. apply pow2_nonzero.
Qed.

Lemma repr_Z (z : Z) : (Z.abs z < 2 ^ 53)%Z -> repr (inject_Z z).
Proof.
  intros Hz. exists z, 0%Z. split; [| split; [exact Hz | lia]].
  unfold pow2. simpl. ring.
Qed.

Lemma repr_comp (x y : Q) : x == y -> repr x -> repr y.
Proof.
  intros Hxy (N & f & Hx & HN & Hf). exists N, f. split; [| split; assumption].
  rewrite <- Hxy. exact Hx.
Qed.


Lemma inject_Z_sub (a b : Z) : inject_Z (a - b) == inject_Z a - inject_Z b.
Proof. unfold Qeq, Qminus, Qplus, Qopp, inject_Z; simpl. ring. Qed.

(** A remainder [x - t * w] no larger than [x] and smaller than [w] is
    representable when [x] and [w] are: this is why C's [fmod] is exact. *)
Lemma repr_rem (x w r : Q) (t : Z) :
  repr x -> repr w -> r == x - inject_Z t * w ->
  Qabs r <= Qabs x -> Qabs r < Qabs w -> repr r.
Proof.
  intros (Nx & ex & Hx & HNx & Hex) (Nw & ew & Hw & HNw & Hew) Hr Hbx Hbw.
  set (h := Z.min ex ew).
  set (R := (Nx * 2 ^ (ex - h) - t * (Nw * 2 ^ (ew - h)))%Z).
  assert (HrR : r == inject_Z R * pow2 h).
  { rewrite Hr, Hx, Hw, (pow2_split ex h), (pow2_split ew h).
    rewrite (pow2_Z (ex - h)), (pow2_Z (ew - h)) by lia.
    unfold R. rewrite inject_Z_sub, !inject_Z_mult. ring. }
  assert (Hh : 0 < pow2 h) by apply pow2_pos.
  exists R, h. split; [exact HrR | split; [| lia]].
  rewrite HrR, Qabs_scaled in Hbx, Hbw. rewrite Hx, Qabs_scaled in Hbx.
  rewrite Hw, Qabs_scaled in Hbw.
  destruct (Z.le_ge_cases ex ew) as [Hle|Hge].
  - assert (Hhx : h = ex) by lia. rewrite <- Hhx in Hbx.
    apply Qmult_le_r in Hbx; [| exact Hh]. rewrite <- Zle_Qle in Hbx. lia.
  - assert (Hhw : h = ew) by lia. rewrite <- Hhw in Hbw.
    apply Qmult_lt_r in Hbw; [| exact Hh]. rewrite <- Zlt_Qlt in Hbw. lia.
Qed.

End Float64Facts.

(* ------------------------------------------------------------------ *)
(** ** Facts about the formatter *)

Module ZodiacFacts.
Import Float64 Float64Facts Py Zodiac.
Open Scope Q_scope.

Lemma Qred_inject_Z (z : Z) : Qred (inject_Z z) = inject_Z z.
Proof.
  unfold Qred, inject_Z.
  pose proof (Z.ggcd_gcd z 1) as Hg. pose proof (Z.ggcd_correct_divisors z 1) as Hd.
  destruct (Z.ggcd z 1) as [g [aa bb]]. simpl in *.
  rewrite Z.gcd_1_r in Hg. subst g. destruct Hd as [H1 H2].
  rewrite Z.mul_1_l in H1, H2. subst. reflexivity.
Qed.

Lemma Qred_zero (x : Q) : x == 0 -> Qred x = 0.
Proof. intros H. rewrite (Qred_complete x 0 H). reflexivity. Qed.

Lemma Qfloor_unique (x : Q) (z : Z) :
  inject_Z z <= x -> x < inject_Z (z + 1) -> Qfloor x = z.
Proof.
  intros Hlo Hhi.
  pose proof (Qfloor_le x) as H1. pose proof (Qlt_floor x) as H2.
  assert (A : (Qfloor x < z + 1)%Z).
  { rewrite Zlt_Qlt. apply (Qle_lt_trans _ x); assumption. }
  assert (B : (z < Qfloor x + 1)%Z).
  { rewrite Zlt_Qlt. apply (Qle_lt_trans _ x); assumption. }
  lia.
Qed.

Lemma py_int_nonneg (x : Q) : 0 <= x -> py_int x = Qfloor x.
Proof.
  intros H. unfold py_int. apply qleb_spec in H. rewrite H. reflexivity.
Qed.

Lemma py_int_neg (x : Q) : x < 0 -> py_int x = Qceiling x.
Proof.
  intros H. unfold py_int. destruct (qleb 0 x) eqn:E; [| reflexivity].
  apply qleb_spec in E. exfalso. apply (Qlt_irrefl 0). apply (Qle_lt_trans _ x); assumption.
Qed.

Lemma py_int_comp (x y : Q) : x == y -> py_int x = py_int y.
Proof.
  intros H. destruct (Qlt_le_dec x 0) as [Hx|Hx].
  - rewrite !py_int_neg by (try rewrite <- H; exact Hx). apply Qceiling_comp. exact H.
  - rewrite !py_int_nonneg by (try rewrite <- H; exact Hx). apply Qfloor_comp. exact H.
Qed.

Lemma c_fmod_comp (x y w : Q) : x == y -> c_fmod x w = c_fmod y w.
Proof.
  intros H. unfold c_fmod. apply Qred_complete.
  assert (E : x / w == y / w) by (rewrite H; reflexivity).
  rewrite (py_int_comp _ _ E), H. reflexivity.
Qed.

(** For a non-negative [x] and a positive [w], [fmod] is the floor remainder. *)
Lemma c_fmod_nonneg (x w : Q) : 0 <= x -> 0 < w ->
  c_fmod x w = Qred (x - inject_Z (Qfloor (x / w)) * w) /\
  0 <= x - inject_Z (Qfloor (x / w)) * w /\ x - inject_Z (Qfloor (x / w)) * w < w.
Proof.
  intros Hx Hw.
  assert (Hq : 0 <= x / w).
  { apply Qle_shift_div_l; [exact Hw |]. rewrite Qmult_0_l. exact Hx. }
  unfold c_fmod. rewrite (py_int_nonneg _ Hq). split; [reflexivity |].
  pose proof (Qfloor_le (x / w)) as H1. pose proof (Qlt_floor (x / w)) as H2.
  split.
  - apply (Qmult_le_compat_r _ _ w) in H1; [| apply Qlt_le_weak; exact Hw].
    assert (E : x / w * w == x) by (field; intros E; rewrite E in Hw; discriminate Hw).
    rewrite E in H1. apply (Qplus_le_l _ _ (inject_Z (Qfloor (x / w)) * w)).
    ring_simplify. exact H1.
  - apply (Qmult_lt_compat_r _ _ w) in H2; [| exact Hw].
    assert (E : x / w * w == x) by (field; intros E; rewrite E in Hw; discriminate Hw).
    rewrite E, inject_Z_plus in H2.
    apply (Qplus_lt_l _ _ (inject_Z (Qfloor (x / w)) * w)).
    ring_simplify. ring_simplify in H2. exact H2.
Qed.

(** On non-negative inputs [x % 360.0] is the exact floor remainder. *)
Lemma normalize_nonneg (x : Q) : 0 <= x ->
  normalize_deg x = c_fmod x 360 /\ 0 <= c_fmod x 360 /\ c_fmod x 360 < 360.
Proof.
  intros Hx.
  destruct (c_fmod_nonneg x 360 Hx eq_refl) as (Hm & Hlo & Hhi).
  assert (Lo : 0 <= c_fmod x 360) by (rewrite Hm, Qred_correct; exact Hlo).
  assert (Hi : c_fmod x 360 < 360) by (rewrite Hm, Qred_correct; exact Hhi).
  split; [| split; assumption].
  unfold normalize_deg, py_mod. cbv zeta.
  destruct (qeqb (c_fmod x 360) 0) eqn:E; simpl negb; cbv iota.
  - apply qeqb_spec in E. rewrite Hm. symmetry. apply Qred_zero.
    rewrite <- E, Hm, Qred_correct. reflexivity.
  - assert (E2 : qltb (c_fmod x 360) 0 = false).
    { destruct (qltb (c_fmod x 360) 0) eqn:F; [| reflexivity].
      apply qltb_spec in F. exfalso. apply (Qlt_irrefl 0). apply (Qle_lt_trans _ _ _ Lo F). }
    rewrite E2. reflexivity.
Qed.


Lemma py_index_ok {A : Type} (l : list A) (i : Z) :
  (0 <= i < Z.of_nat (length l))%Z ->
  exists a, py_index l i = Ok a /\ nth_error l (Z.to_nat i) = Some a.
Proof.
  intros Hi. unfold py_index; cbv zeta.
  replace (i <? 0)%Z with false by (symmetry; apply Z.ltb_ge; lia).
  replace ((0 <=? i)%Z && (i <? Z.of_nat (length l))%Z) with true
    by (symmetry; apply andb_true_intro; split; [apply Z.leb_le | apply Z.ltb_lt]; lia).
  destruct (nth_error l (Z.to_nat i)) eqn:E.
  - eexists; split; reflexivity.
  - apply nth_error_None in E. lia.
Qed.

Lemma py_index_In {A : Type} (l : list A) (i : Z) (a : A) :
  py_index l i = Ok a -> In a l.
Proof.
  unfold py_index; cbv zeta.
  destruct (_ && _); [| discriminate].
  destruct (nth_error l _) eqn:E; [| discriminate].
  intros H; injection H as <-. eapply nth_error_In. exact E.
Qed.

Lemma qeqb_Z_nonzero (k : Z) : k <> 0%Z -> qeqb (inject_Z k) 0 = false.
Proof.
  intros Hk. destruct (qeqb (inject_Z k) 0) eqn:E; [| reflexivity].
  apply qeqb_spec in E. unfold Qeq in E. simpl in E. lia.
Qed.

(** [lon // 30] on a longitude in [[0, 360)] is the exact floor quotient. *)
Lemma floordiv_small (lon : Q) : 0 <= lon -> lon < 360 ->
  py_floordiv lon 30 = inject_Z (Qfloor (lon / 30)) /\
  (0 <= Qfloor (lon / 30) <= 11)%Z.
Proof.
  intros Hlo Hhi. set (k := Qfloor (lon / 30)).
  assert (Hk : (0 <= k <= 11)%Z).
  { assert (H0 : 0 <= lon / 30).
    { apply Qle_shift_div_l; [reflexivity |]. rewrite Qmult_0_l. exact Hlo. }
    assert (H12 : lon / 30 < 12).
    { apply Qlt_shift_div_r; [reflexivity |]. exact Hhi. }
    pose proof (Qfloor_resp_le 0 (lon / 30) H0) as A.
    pose proof (Qfloor_le (lon / 30)) as B.
    change (Qfloor 0) with 0%Z in A.
    assert (C : inject_Z k < inject_Z 12) by (apply (Qle_lt_trans _ _ _ B H12)).
    rewrite <- Zlt_Qlt in C. fold k in A. lia. }
  split; [| exact Hk].
  destruct (c_fmod_nonneg lon 30 Hlo eq_refl) as (Hm & Hmlo & Hmhi). fold k in Hm, Hmlo, Hmhi.
  assert (Hsub : fsub lon (c_fmod lon 30) = inject_Z (k * 30)).
  { unfold fsub. rewrite (rnd64_comp _ (inject_Z (k * 30))).
    - rewrite rnd64_repr by (apply repr_Z; lia). apply Qred_inject_Z.
    - rewrite Hm, Qred_correct, inject_Z_mult. ring. }
  assert (Hdiv : fdiv (fsub lon (c_fmod lon 30)) 30 = inject_Z k).
  { rewrite Hsub. unfold fdiv. rewrite (rnd64_comp _ (inject_Z k)).
    - rewrite rnd64_repr by (apply repr_Z; lia). apply Qred_inject_Z.
    - rewrite inject_Z_mult. field. }
  assert (Hneg : qltb (c_fmod lon 30) 0 = false).
  { destruct (qltb (c_fmod lon 30) 0) eqn:F; [| reflexivity].
    apply qltb_spec in F. rewrite Hm, Qred_correct in F.
    exfalso. apply (Qlt_irrefl 0). apply (Qle_lt_trans _ _ _ Hmlo F). }
  unfold py_floordiv; cbv zeta. rewrite Hdiv, Hneg.
  replace (qltb 30 0) with false by reflexivity.
  assert (Hsame : (if negb (qeqb (c_fmod lon 30) 0)
                   then (if negb (Bool.eqb false false) then fsub (inject_Z k) 1 else inject_Z k)
                   else inject_Z k) = inject_Z k)
    by (destruct (negb (qeqb (c_fmod lon 30) 0)); reflexivity).
  rewrite Hsame.
  destruct (Z.eq_dec k 0) as [E|E].
  - rewrite E. reflexivity.
  - rewrite (qeqb_Z_nonzero k E). simpl negb; cbv iota.
    rewrite Qfloor_Z.
    unfold fsub. rewrite rnd64_zero by ring.
    reflexivity.
Qed.

(** The formatter on a non-negative longitude. *)
Lemma zodiac_nonneg (x : Q) : 0 <= x ->
  let lon := normalize_deg x in
  let k := Qfloor (lon / 30) in
  0 <= lon /\ lon < 360 /\ (0 <= k <= 11)%Z /\ py_int (py_floordiv lon 30) = k /\
  exists s, py_index SIGNS k = Ok s /\
            zodiac_sign_and_pos x = Ok (s, rnd64 (lon - inject_Z k * 30)).
Proof.
  intros Hx lon k.
  destruct (normalize_nonneg x Hx) as (Hn & Hlo & Hhi).
  assert (Llo : 0 <= lon) by (unfold lon; rewrite Hn; exact Hlo).
  assert (Lhi : lon < 360) by (unfold lon; rewrite Hn; exact Hhi).
  destruct (floordiv_small lon Llo Lhi) as [Hfd Hk]. fold k in Hfd, Hk.
  assert (Hint : py_int (py_floordiv lon 30) = k).
  { rewrite Hfd, py_int_nonneg, Qfloor_Z; [reflexivity |].
    change 0 with (inject_Z 0). rewrite <- Zle_Qle. lia. }
  do 4 (split; [assumption |]).
  destruct (py_index_ok SIGNS k) as (s & Hs & _); [simpl; lia |].
  exists s. split; [exact Hs |].
  unfold zodiac_sign_and_pos; cbv zeta. fold lon. rewrite Hint, Hs. simpl bind.
  unfold fmul at 1. rewrite (rnd64_repr (inject_Z k * 30)).
  - unfold fsub. do 2 f_equal. apply rnd64_comp. rewrite Qred_correct. reflexivity.
  - apply (repr_comp (inject_Z (k * 30))); [rewrite inject_Z_mult; reflexivity |].
    apply repr_Z. lia.
Qed.


Lemma Qfloor_plus1 (x : Q) : Qfloor (x + 1) = (Qfloor x + 1)%Z.
Proof.
  apply Qfloor_unique.
  - rewrite inject_Z_plus. apply Qplus_le_l. apply Qfloor_le.
  - rewrite !inject_Z_plus. apply Qplus_lt_l. rewrite <- inject_Z_plus. apply Qlt_floor.
Qed.

Lemma Qceiling_plus1 (x : Q) : Qceiling (x + 1) = (Qceiling x + 1)%Z.
Proof.
  unfold Qceiling.
  assert (E : - (x + 1) == (- x + -1)) by ring.
  rewrite (Qfloor_comp _ _ E).
  assert (F : Qfloor (- x + -1) = (Qfloor (- x) - 1)%Z).
  { apply Qfloor_unique.
    - rewrite inject_Z_sub. apply Qplus_le_l. apply Qfloor_le.
    - replace (Qfloor (- x) - 1 + 1)%Z with (Qfloor (- x)) by lia.
      apply (Qplus_lt_l _ _ 1). ring_simplify.
      pose proof (Qlt_floor (- x)) as H. rewrite inject_Z_plus in H. exact H. }
  rewrite F. lia.
Qed.

Lemma py_int_plus1 (x : Q) : 0 <= x \/ x + 1 < 0 -> py_int (x + 1) = (py_int x + 1)%Z.
Proof.
  intros [H|H].
  - rewrite !py_int_nonneg; [apply Qfloor_plus1 | exact H |].
    apply (Qle_trans _ x); [exact H |]. apply (Qplus_le_l _ _ (- x)). ring_simplify. discriminate.
  - rewrite !py_int_neg; [apply Qceiling_plus1 | |exact H].
    apply (Qlt_trans _ (x + 1)); [| exact H]. apply (Qplus_lt_l _ _ (- x)). ring_simplify. reflexivity.
Qed.

(** Adding 360 does not change [fmod(_, 360)] unless it crosses zero. *)
Lemma c_fmod_shift (L : Q) : 0 <= L \/ L + 360 < 0 -> c_fmod (L + 360) 360 = c_fmod L 360.
Proof.
  intros H. unfold c_fmod. apply Qred_complete.
  assert (E : (L + 360) / 360 == L / 360 + 1) by field.
  rewrite (py_int_comp _ _ E), py_int_plus1, inject_Z_plus; [ring |].
  destruct H as [H|H]; [left | right].
  - apply Qle_shift_div_l; [reflexivity |]. rewrite Qmult_0_l. exact H.
  - apply (Qmult_lt_r _ _ 360); [reflexivity |].
    assert (F : (L / 360 + 1) * 360 == L + 360) by field. rewrite F. exact H.
Qed.

(** For a negative [x], [fmod(x, w)] lies in [(-w, 0]]. *)
Lemma c_fmod_neg (x w : Q) : x < 0 -> 0 < w -> - w < c_fmod x w /\ c_fmod x w <= 0.
Proof.
  intros Hx Hw. unfold c_fmod.
  assert (Hq : x / w < 0).
  { apply Qlt_shift_div_r; [exact Hw |]. rewrite Qmult_0_l. exact Hx. }
  rewrite (py_int_neg _ Hq), !Qred_correct.
  assert (Wnz : ~ w == 0) by (intros E; rewrite E in Hw; discriminate Hw).
  set (c := inject_Z (Qceiling (x / w))).
  assert (H1 : x / w <= c) by apply Qle_ceiling.
  assert (H2 : c - 1 < x / w) by (pose proof (Qceiling_lt (x / w)) as H; rewrite inject_Z_sub in H; exact H).
  assert (E : x / w * w == x) by (field; exact Wnz).
  apply (Qmult_lt_compat_r _ _ w) in H2; [| exact Hw].
  apply (Qmult_le_compat_r _ _ w) in H1; [| apply Qlt_le_weak; exact Hw].
  rewrite E in H1, H2.
  assert (F : (c - 1) * w == c * w - w) by ring. rewrite F in H2.
  set (cw := c * w) in *. split; lra.
Qed.

Lemma py_mod_neg (x : Q) : x < 0 ->
  py_mod x 360 = (if qeqb (c_fmod x 360) 0 then 0 else fadd (c_fmod x 360) 360).
Proof.
  intros Hx. destruct (c_fmod_neg x 360 Hx eq_refl) as [Hlo Hhi].
  unfold py_mod; cbv zeta.
  destruct (qeqb (c_fmod x 360) 0) eqn:E; [reflexivity |]. simpl negb; cbv iota.
  replace (qltb 360 0) with false by reflexivity.
  replace (qltb (c_fmod x 360) 0) with true; [reflexivity |].
  symmetry. apply qltb_spec. apply Qle_lteq in Hhi as [H|H]; [exact H |].
  apply qeqb_spec in H. congruence.
Qed.

End ZodiacFacts.

(* ------------------------------------------------------------------ *)
(** ** Properties of the position formatter *)

Module FormatterSpec.
Import Float64 Float64Facts Py Zodiac ZodiacFacts.
Open Scope Q_scope.

(** Claim C1.  For every [pos_in_sign] in [[0, 30)], [round_to_arcminute]
    returns [(deg, min)] with [deg] in [[0, 29]] and [min] in [[0, 59]];
    when the rounded minute is 60 the degree is incremented and the minute
    reset to 0, and a degree of 30 is clamped to [(29, 59)].  The boundary
    input [29.9999] gives [(29, 59)]. *)
Theorem round_to_arcminute_bounds :
  (forall pos : Q, 0 <= pos -> pos < 30 ->
     match round_to_arcminute pos with
     | (d, m) =>
         (0 <= d <= 29)%Z /\ (0 <= m <= 59)%Z /\
         (rhe (fmul (fsub pos (inject_Z (py_int pos))) 60) = 60%Z ->
          (d, m) = (if (py_int pos + 1 =? 30)%Z then (29%Z, 59%Z)
                    else ((py_int pos + 1)%Z, 0%Z)))
     end) /\
  round_to_arcminute (rnd64 (299999 # 10000)) = (29%Z, 59%Z).
Proof.
  split; [| vm_compute; reflexivity].
  intros pos H0 H30.
  unfold round_to_arcminute; cbv zeta.
  set (d0 := py_int pos).
  assert (Hd0 : d0 = Qfloor pos) by (apply py_int_nonneg; exact H0).
  assert (Dlo : (0 <= d0)%Z).
  { rewrite Hd0. change 0%Z with (Qfloor 0). apply Qfloor_resp_le. exact H0. }
  assert (Dhi : (d0 <= 29)%Z).
  { rewrite Hd0. assert (A : inject_Z (Qfloor pos) < inject_Z 30)
      by (apply (Qle_lt_trans _ pos); [apply Qfloor_le | exact H30]).
    rewrite <- Zlt_Qlt in A. lia. }
  destruct (frac_bounds pos) as [Flo Fhi]. rewrite <- Hd0 in Flo, Fhi.
  set (f := fsub pos (inject_Z d0)).
  assert (Hf : 0 <= f /\ f <= 1).
  { split; [apply rnd64_nonneg; exact Flo |].
    apply rnd64_le; [exact Flo | apply Qlt_le_weak; exact Fhi | apply (repr_Z 1); lia]. }
  set (g := fmul f 60).
  assert (Hg : 0 <= g /\ g <= 60).
  { destruct Hf as [Hf0 Hf1].
    assert (P0 : 0 <= f * 60) by (apply Qmult_le_0_compat; [exact Hf0 | discriminate]).
    split; [apply rnd64_nonneg; exact P0 |].
    apply rnd64_le; [exact P0 | | apply (repr_Z 60); lia].
    apply (Qle_trans _ (1 * 60)); [apply Qmult_le_compat_r; [exact Hf1 | discriminate] | apply Qle_refl]. }
  set (m0 := rhe g).
  assert (Hm : (0 <= m0 <= 60)%Z).
  { destruct Hg as [Hg0 Hg1]. split.
    - rewrite <- (rhe_Z 0). apply rhe_mono. exact Hg0.
    - rewrite <- (rhe_Z 60). apply rhe_mono. exact Hg1. }
  destruct (Z.eqb_spec m0 60) as [E|E].
  - destruct (Z.eqb_spec (d0 + 1) 30) as [E2|E2].
    + split; [lia | split; [lia | intros _; reflexivity]].
    + split; [lia | split; [lia | intros _; reflexivity]].
  - split; [lia | split; [lia | intros E'; contradiction]].
Qed.


(** Claim C5.  For every float longitude [L] in [[0, 360)],
    [zodiac_sign_and_pos L] returns the sign [SIGNS[floor(L/30)]] and the
    position [L - 30 * floor(L/30)], which lies in [[0, 30)]. *)
Theorem zodiac_sign_and_pos_in_range (L : Q) :
  repr L -> 0 <= L -> L < 360 ->
  exists sign pos,
    zodiac_sign_and_pos L = Ok (sign, pos) /\
    py_index SIGNS (Qfloor (L / 30)) = Ok sign /\
    pos == L - 30 * inject_Z (Qfloor (L / 30)) /\
    0 <= pos /\ pos < 30.
Proof.
  intros HL H0 H360.
  destruct (zodiac_nonneg L H0) as (Llo & Lhi & Hk & _ & s & Hs & Hz).
  assert (Hlon : normalize_deg L == L).
  { destruct (normalize_nonneg L H0) as [Hn _]. rewrite Hn.
    destruct (c_fmod_nonneg L 360 H0 eq_refl) as [Hm _]. rewrite Hm, Qred_correct.
    assert (F : Qfloor (L / 360) = 0%Z).
    { apply Qfloor_unique.
      - apply Qle_shift_div_l; [reflexivity |]. rewrite Qmult_0_l. exact H0.
      - apply Qlt_shift_div_r; [reflexivity |]. exact H360. }
    rewrite F. ring. }
  assert (Hkf : Qfloor (normalize_deg L / 30) = Qfloor (L / 30))
    by (apply Qfloor_comp; rewrite Hlon; reflexivity).
  rewrite Hkf in Hs, Hz, Hk.
  set (k := Qfloor (L / 30)) in *.
  destruct (c_fmod_nonneg L 30 H0 eq_refl) as (_ & Rlo & Rhi). fold k in Rlo, Rhi.
  assert (Rle : L - inject_Z k * 30 <= L).
  { assert (0 <= inject_Z k * 30)
      by (apply Qmult_le_0_compat; [change 0 with (inject_Z 0); rewrite <- Zle_Qle; lia | discriminate]).
    lra. }
  assert (Hr : repr (normalize_deg L - inject_Z k * 30)).
  { apply (repr_rem L 30 _ k HL (repr_Z 30 ltac:(lia))).
    - rewrite Hlon. reflexivity.
    - rewrite Hlon, !Qabs_pos; [exact Rle | lra | exact Rlo].
    - rewrite Hlon, Qabs_pos by exact Rlo. exact Rhi. }
  rewrite (rnd64_repr _ Hr) in Hz.
  exists s, (Qred (normalize_deg L - inject_Z k * 30)).
  split; [exact Hz |]. split; [exact Hs |].
  rewrite Qred_correct, Hlon. split; [ring |]. split; assumption.
Qed.

Lemma zodiac_sign_and_pos_in_range_witness :
  exists sign pos, zodiac_sign_and_pos (inject_Z 45) = Ok (sign, pos) /\ 0 <= pos /\ pos < 30.
Proof.
  destruct (zodiac_sign_and_pos_in_range (inject_Z 45) (repr_Z 45 ltac:(lia))
              ltac:(unfold Qle; simpl; lia) ltac:(unfold Qlt; simpl; lia))
    as (s & p & H1 & _ & _ & H4 & H5).
  exists s, p. split; [exact H1 | split; assumption].
Defined.

(** Claim C6, refuted.  With float addition, [L + 360] is rounded: for
    [L = 0.1] (the double nearest 1/10) the sum [360.1] has lost bits, and
    [zodiac_sign_and_pos(0.1 + 360)] reports the position
    [0.10000000000002274], not [0.1]. *)
Lemma zodiac_shift_360_counterexample :
  repr (rnd64 (1 # 10)) /\
  zodiac_sign_and_pos (fadd (rnd64 (1 # 10)) 360) <> zodiac_sign_and_pos (rnd64 (1 # 10)).
Proof.
  split.
  - exists 3602879701896397%Z, (-55)%Z. vm_compute. split; [reflexivity | split; [reflexivity | discriminate]].
  - vm_compute. intros H. injection H as H. discriminate H.
Qed.

(** Claim C6, as amended.  Whenever the float sum [L + 360] is exact,
    [zodiac_sign_and_pos (L + 360)] and [zodiac_sign_and_pos L] agree
    (same sign and same position, or the same exception). *)
Theorem zodiac_sign_and_pos_shift_360 (L : Q) :
  repr (L + 360) -> zodiac_sign_and_pos (fadd L 360) = zodiac_sign_and_pos L.
Proof.
  intros HR.
  assert (HN : normalize_deg (fadd L 360) = normalize_deg L).
  { unfold fadd. rewrite (rnd64_repr _ HR).
    assert (Hc : c_fmod (Qred (L + 360)) 360 = c_fmod (L + 360) 360)
      by (apply c_fmod_comp, Qred_correct).
    destruct (Qlt_le_dec L 0) as [Hneg|Hnn].
    - destruct (Qlt_le_dec (L + 360) 0) as [Hneg2|Hnn2].
      + unfold normalize_deg, py_mod. rewrite Hc, c_fmod_shift by (right; exact Hneg2).
        reflexivity.
      + assert (Hq : 0 <= Qred (L + 360)) by (rewrite Qred_correct; exact Hnn2).
        destruct (normalize_nonneg _ Hq) as [Hn _]. rewrite Hn, Hc.
        destruct (c_fmod_nonneg (L + 360) 360 Hnn2 eq_refl) as [Hm _]. rewrite Hm.
        assert (F : Qfloor ((L + 360) / 360) = 0%Z).
        { apply Qfloor_unique.
          - apply Qle_shift_div_l; [reflexivity |]. rewrite Qmult_0_l. exact Hnn2.
          - apply Qlt_shift_div_r; [reflexivity |]. change (inject_Z (0 + 1)) with 1. lra. }
        rewrite F.
        assert (G : L + 360 - inject_Z 0 * 360 == L + 360) by ring.
        rewrite (Qred_complete _ _ G).
        unfold normalize_deg. rewrite py_mod_neg by exact Hneg.
        destruct (Qeq_dec L (-360)) as [E|E].
        * assert (Z0 : c_fmod L 360 == 0).
          { unfold c_fmod. rewrite Qred_correct.
            rewrite (py_int_comp _ (-1)) by (rewrite E; reflexivity).
            rewrite E. reflexivity. }
          replace (qeqb (c_fmod L 360) 0) with true by (symmetry; apply qeqb_spec; exact Z0).
          apply Qred_zero. rewrite E. reflexivity.
        * assert (Cm : c_fmod L 360 = Qred L).
          { unfold c_fmod. apply Qred_complete.
            assert (Hq' : L / 360 < 0).
            { apply Qlt_shift_div_r; [reflexivity |]. rewrite Qmult_0_l. exact Hneg. }
            rewrite (py_int_neg _ Hq').
            assert (C0 : Qceiling (L / 360) = 0%Z).
            { unfold Qceiling.
              assert (F0 : Qfloor (- (L / 360)) = 0%Z).
              { apply Qfloor_unique.
                - apply Qlt_le_weak. simpl inject_Z.
                  apply (Qplus_lt_l _ _ (L / 360)). ring_simplify. exact Hq'.
                - simpl inject_Z.
                  assert (Lgt : -360 < L) by (apply Qle_lteq in Hnn2 as [H|H];
                    [lra | exfalso; apply E; lra]).
                  apply (Qmult_lt_r _ _ 360); [reflexivity |].
                  assert (F1 : - (L / 360) * 360 == - L) by field. rewrite F1.
                  change (inject_Z 1) with 1. lra. }
              rewrite F0. reflexivity. }
            rewrite C0. ring. }
          rewrite Cm.
          replace (qeqb (Qred L) 0) with false.
          -- unfold fadd. rewrite (rnd64_comp _ (L + 360)) by (rewrite Qred_correct; reflexivity).
             symmetry. apply rnd64_repr. exact HR.
          -- symmetry. destruct (qeqb (Qred L) 0) eqn:Q0; [| reflexivity].
             apply qeqb_spec in Q0. rewrite Qred_correct in Q0. rewrite Q0 in Hneg.
             discriminate Hneg.
    - unfold normalize_deg, py_mod. rewrite Hc, c_fmod_shift by (left; exact Hnn).
      reflexivity. }
  unfold zodiac_sign_and_pos. rewrite HN. reflexivity.
Qed.

Lemma zodiac_sign_and_pos_shift_360_witness :
  zodiac_sign_and_pos (fadd (inject_Z 45) 360) = zodiac_sign_and_pos (inject_Z 45).
Proof.
  apply zodiac_sign_and_pos_shift_360.
  apply (repr_comp (inject_Z 405)); [vm_compute; reflexivity | apply repr_Z; lia].
Defined.

Lemma round_to_arcminute_bounds_witness :
  round_to_arcminute (rnd64 (299999 # 10000)) = (29%Z, 59%Z) /\
  (0 <= 29 <= 29)%Z /\ (0 <= 59 <= 59)%Z.
Proof.
  destruct round_to_arcminute_bounds as [H _].
  pose proof (H (rnd64 (299999 # 10000)) ltac:(vm_compute; discriminate)
                ltac:(vm_compute; reflexivity)) as Hb.
  assert (E : round_to_arcminute (rnd64 (299999 # 10000)) = (29%Z, 59%Z))
    by (vm_compute; reflexivity).
  rewrite E in Hb. destruct Hb as (H1 & H2 & _).
  split; [exact E | split; assumption].
Defined.

End FormatterSpec.

(* ------------------------------------------------------------------ *)
(** ** Facts about the error monad and the handler's loops *)

Module AppFacts.
Import Float64 Float64Facts Py Zodiac ZodiacFacts App.

Lemma bind_Ok {A B : Type} (m : result A) (k : A -> result B) (b : B) :
  bind m k = Ok b -> exists a, m = Ok a /\ k a = Ok b.
Proof. destruct m as [a|e]; simpl; [eauto | discriminate]. Qed.

(** Peel the [bind]s of a hypothesis [H : ... = Ok _], one call at a time,
    keeping [bind] folded. *)
Ltac peel H :=
  repeat match type of H with
  | bind ?m _ = Ok _ =>
      let a := fresh "a" in let E := fresh "E" in let H' := fresh "H" in
      destruct (bind_Ok _ _ _ H) as (a & E & H'); clear H; rename H' into H; cbv beta in H
  | (match ?p with pair _ _ => _ end) = _ =>
      let r := fresh "r" in let E := fresh "E" in
      remember p as r eqn:E; symmetry in E; destruct r; cbv beta iota zeta in H
  | (let _ := _ in _) = _ => cbv zeta in H
  end.

Lemma dict_set_new {V : Type} (d : list (string * V)) (k : string) (v : V) :
  ~ In k (map fst d) -> dict_set d k v = d ++ [(k, v)].
Proof.
  induction d as [| [k' v'] d IH]; simpl; intros Hn; [reflexivity |].
  destruct (String.eqb_spec k k') as [E|E]; [exfalso; apply Hn; left; congruence |].
  rewrite IH by (intros Hi; apply Hn; right; exact Hi). reflexivity.
Qed.

Lemma zodiac_sign_In (x : Q) (s : string) (p : Q) :
  zodiac_sign_and_pos x = Ok (s, p) -> In s SIGNS.
Proof.
  unfold zodiac_sign_and_pos; cbv zeta. intros H.
  destruct (bind_Ok _ _ _ H) as (s' & Hs & Hk). injection Hk as <- _.
  exact (py_index_In _ _ _ Hs).
Qed.

Lemma cusps_loop_cons (i : Z) (x : Q) (l : list Q) :
  cusps_loop i (x :: l) =
  (let cusp_lon := normalize_deg x in
   '(hs, hp) <- zodiac_sign_and_pos cusp_lon ;;
   let '(hd, hm) := round_to_arcminute hp in
   tl_out <- cusps_loop (i + 1) l ;;
   Ok ({| c_house := i; c_sign := hs; c_deg := hd; c_min := hm; c_lon_deg := cusp_lon |}
       :: tl_out)).
Proof. reflexivity. Qed.

Lemma cusps_loop_spec (i : Z) (l : list Q) (out : list cusp_out) :
  cusps_loop i l = Ok out ->
  map c_house out = map (fun k => (i + Z.of_nat k)%Z) (seq 0 (length l)) /\
  Forall (fun c => In (c_sign c) SIGNS) out.
Proof.
  revert i out. induction l as [| x l IH]; intros i out H.
  - simpl in H. injection H as <-. split; [reflexivity | constructor].
  - rewrite cusps_loop_cons in H. peel H.
    injection H as <-.
    match goal with Hc : cusps_loop _ l = Ok _ |- _ => destruct (IH _ _ Hc) as [Hm Hf] end.
    simpl. split.
    + f_equal; [lia |]. rewrite Hm, <- seq_shift, map_map.
      apply map_ext. intros k. rewrite Nat2Z.inj_succ. ring.
    + constructor; [| exact Hf].
      match goal with Hz : zodiac_sign_and_pos _ = Ok _ |- _ => exact (zodiac_sign_In _ _ _ Hz) end.
Qed.

Section Planets.
Variable calc_ut : Q -> Z -> Z -> result (list Q * Z).
Variable house_pos : Q -> Q -> Q -> Q * Q -> string -> result Q.

Lemma planets_loop_cons (jd lat lon : Q) (houses ascmc : list Q) (name : string) (body : Z)
  (items : list (string * Z)) (acc : list (string * planet_out)) :
  planets_loop calc_ut house_pos jd lat lon houses ascmc ((name, body) :: items) acc =
  (xx <- calc_ut jd body FLAGS ;;
   let res := fst xx in
   res0 <- py_index res 0 ;;
   let ecl_lon := normalize_deg res0 in
   speed_lon <- py_index res 3 ;;
   let retro := qltb speed_lon 0 in
   '(sign, pos_in_sign) <- zodiac_sign_and_pos ecl_lon ;;
   let '(d, m) := round_to_arcminute pos_in_sign in
   house_num <- house_for_longitude calc_ut house_pos jd lat lon ecl_lon houses ascmc ;;
   planets_loop calc_ut house_pos jd lat lon houses ascmc items
     (dict_set acc name
        {| p_sign := sign; p_deg := d; p_min := m; p_lon_deg := ecl_lon;
           p_retrograde := retro; p_house := house_num |})).
Proof. reflexivity. Qed.

Lemma planets_loop_spec (jd lat lon : Q) (houses ascmc : list Q)
  (items : list (string * Z)) (acc out : list (string * planet_out)) :
  planets_loop calc_ut house_pos jd lat lon houses ascmc items acc = Ok out ->
  NoDup (map fst acc ++ map fst items) ->
  (forall nb, In nb items -> In nb PLANETS) ->
  Forall (fun ne : string * planet_out => exists body xx f speed,
     In (fst ne, body) PLANETS /\ calc_ut jd body FLAGS = Ok (xx, f) /\
     py_index xx 3 = Ok speed /\ (p_retrograde (snd ne) = true <-> (speed < 0)%Q)) acc ->
  map fst out = map fst acc ++ map fst items /\
  Forall (fun ne : string * planet_out => exists body xx f speed,
     In (fst ne, body) PLANETS /\ calc_ut jd body FLAGS = Ok (xx, f) /\
     py_index xx 3 = Ok speed /\ (p_retrograde (snd ne) = true <-> (speed < 0)%Q)) out.
Proof.
  revert acc. induction items as [| [name body] items IH]; intros acc H Hnd Hin Hacc.
  - simpl in H. injection H as <-. rewrite app_nil_r. split; [reflexivity | exact Hacc].
  - rewrite planets_loop_cons in H. peel H.
    simpl in Hnd.
    assert (Hnew : ~ In name (map fst acc)).
    { intros Hi. apply (NoDup_remove_2 _ _ _ Hnd). apply in_or_app. left. exact Hi. }
    rewrite (dict_set_new _ _ _ Hnew) in H.
    destruct (IH _ H) as [Hk Hf].
    + rewrite map_app. simpl. rewrite <- app_assoc. exact Hnd.
    + intros nb Hnb. apply Hin. right. exact Hnb.
    + apply Forall_app. split; [exact Hacc |]. constructor; [| constructor].
      destruct a as [xx f]. exists body, xx, f, a1. cbn [fst snd p_retrograde].
      split; [apply Hin; left; reflexivity |]. split; [exact E |]. split; [exact E1 |].
      apply qltb_spec.
    + split; [| exact Hf]. rewrite Hk, map_app, <- app_assoc. reflexivity.
Qed.

End Planets.

End AppFacts.

(* ------------------------------------------------------------------ *)
(** ** House assignment *)

Module HouseSpec.
Import Float64 Py App.

(** Claim C2.  Whatever raw house position [hpos] the house-position call
    returns (out-of-range values included), [house_for_longitude] returns
    [floor(hpos)] clamped into [[1, 12]]: a floor below 1 gives 1, a floor
    above 12 gives 12, and a floor in [[1, 12]] is returned as is.  The
    premises say that the obliquity ([ascmc[9]], or the [ECL_NUT] call when
    [ascmc] is shorter) and [ascmc[2]] were read. *)
Theorem house_for_longitude_clamped
  (calc_ut : Q -> Z -> Z -> result (list Q * Z))
  (house_pos : Q -> Q -> Q -> Q * Q -> string -> result Q)
  (jd_ut lat lon ecl_lon : Q) (houses ascmc : list Q) (armc obliq hpos : Q) :
  (if (9 <? Z.of_nat (length ascmc))%Z then py_index ascmc 9 = Ok obliq
   else exists xx f, calc_ut jd_ut Swe.ECL_NUT FLAGS = Ok (xx, f) /\ py_index xx 0 = Ok obliq) ->
  py_index ascmc 2 = Ok armc ->
  house_pos armc lat obliq (ecl_lon, 0) HOUSE_SYSTEM = Ok hpos ->
  exists h,
    house_for_longitude calc_ut house_pos jd_ut lat lon ecl_lon houses ascmc = Ok h /\
    (1 <= h <= 12)%Z /\
    ((Qfloor hpos < 1)%Z -> h = 1%Z) /\
    ((12 < Qfloor hpos)%Z -> h = 12%Z) /\
    ((1 <= Qfloor hpos <= 12)%Z -> h = Qfloor hpos).
Proof.
  intros Hob Harmc Hh. unfold house_for_longitude.
  destruct (9 <? Z.of_nat (length ascmc))%Z.
  - rewrite Hob. cbn [bind]. rewrite Harmc. cbn [bind]. rewrite Hh. cbn [bind].
    eexists. split; [reflexivity |]. cbv zeta.
    destruct (Z.ltb_spec (Qfloor hpos) 1); [| destruct (Z.ltb_spec 12 (Qfloor hpos))];
      simpl; lia.
  - destruct Hob as (xx & f & Hc & H0).
    cbn [bind]. rewrite Hc. cbn [bind fst]. rewrite H0. cbn [bind].
    rewrite Harmc. cbn [bind]. rewrite Hh. cbn [bind].
    eexists. split; [reflexivity |]. cbv zeta.
    destruct (Z.ltb_spec (Qfloor hpos) 1); [| destruct (Z.ltb_spec 12 (Qfloor hpos))];
      simpl; lia.
Qed.

Lemma house_for_longitude_clamped_witness :
  house_for_longitude Stub.calc_ut Stub.house_pos 0 0 0 0 [] [0; 0; 10; 0; 0; 0; 0; 0; 0; 23]
  = Ok 12%Z.
Proof.
  destruct (house_for_longitude_clamped Stub.calc_ut Stub.house_pos 0 0 0 0 []
              [0; 0; 10; 0; 0; 0; 0; 0; 0; 23] 10 23 (132 # 10)
              ltac:(reflexivity) ltac:(reflexivity) ltac:(reflexivity))
    as (h & E & _ & _ & H12 & _).
  rewrite E. f_equal. apply H12. vm_compute. reflexivity.
Defined.

End HouseSpec.

(* ------------------------------------------------------------------ *)
(** ** Geocoding *)

Module GeocodeSpec.
Import Float64 Py Json App.
Local Open Scope Z_scope.
Local Open Scope string_scope.

(** Claim C3.  [geocode_location] calls Nominatim first.  An exception of
    Nominatim is swallowed: the outcome is the one of a Nominatim miss.
    On a miss or an exception it calls Open-Meteo with [count = 1] (one
    best match); a failing Open-Meteo call (an exception of [requests.get],
    an HTTP error status, a body that is not JSON) ends in HTTP 502, and an
    answer without results ends in HTTP 404 whose detail mentions
    "City, State, Country". *)
Theorem geocode_location_fallback
  (nominatim_geocode : string -> result (option location))
  (requests_get : string -> list (string * param) -> Z -> result response)
  (parse_float : string -> result Q) (query : string) :
  let g := geocode_location nominatim_geocode requests_get parse_float in
  let get := requests_get OPEN_METEO_URL (om_params query) 10 in
  hd_error (fst (g query)) = Some (CallNominatim query) /\
  (forall e, nominatim_geocode query = Raise e ->
     g query = geocode_location (fun _ => Ok None) requests_get parse_float query) /\
  ((nominatim_geocode query = Ok None \/ exists e, nominatim_geocode query = Raise e) ->
     fst (g query) = [CallNominatim query; CallOpenMeteo OPEN_METEO_URL (om_params query) 10] /\
     dict_get (om_params query) "count" = Some (PInt 1) /\
     (forall e, (forall c d, e <> HTTPException c d) -> get = Raise e ->
        snd (g query) = Raise (HTTPException 502 ("Geocoding error: " ++ exn_str e))) /\
     (forall r, get = Ok r -> (400 <= status_code r < 600)%Z ->
        snd (g query) = Raise (HTTPException 502 ("Geocoding error: " ++ http_error_text r))) /\
     (forall r e, get = Ok r -> ~ (400 <= status_code r < 600)%Z ->
        (forall c d, e <> HTTPException c d) -> resp_json r = Raise e ->
        snd (g query) = Raise (HTTPException 502 ("Geocoding error: " ++ exn_str e))) /\
     (forall r data v, get = Ok r -> ~ (400 <= status_code r < 600)%Z ->
        resp_json r = Ok data -> json_get data "results" = Ok v ->
        match v with None => True | Some x => json_truthy x = false end ->
        snd (g query) = Raise (HTTPException 404 LOCATION_NOT_FOUND))) /\
  String.index 0 "City, State, Country" LOCATION_NOT_FOUND = Some 25%nat.
Proof.
  intros g get. split; [| split; [| split]].
  - unfold g, geocode_location. destruct (nominatim_geocode query) as [[loc|]|e]; reflexivity.
  - intros e He. unfold g, geocode_location. rewrite He. reflexivity.
  - intros Hn.
    assert (Hg : g query =
      ([CallNominatim query; CallOpenMeteo OPEN_METEO_URL (om_params query) 10],
       match (r <- get ;; open_meteo_answer parse_float r) with
       | Ok v => Ok v
       | Raise (HTTPException c d) => Raise (HTTPException c d)
       | Raise e => Raise (HTTPException 502 ("Geocoding error: " ++ exn_str e))
       end)).
    { unfold g, get, geocode_location. destruct Hn as [Hn | [e Hn]]; rewrite Hn; reflexivity. }
    rewrite Hg. cbn [fst snd]. split; [reflexivity |]. split; [reflexivity |].
    split; [| split; [| split]].
    + intros e He Hget. rewrite Hget. cbn [bind].
      destruct e; try reflexivity. exfalso. eapply He. reflexivity.
    + intros r Hget Hs. rewrite Hget. cbn [bind]. unfold open_meteo_answer, raise_for_status.
      replace ((400 <=? status_code r)%Z && (status_code r <? 600)%Z) with true
        by (symmetry; apply andb_true_iff; split; [apply Z.leb_le | apply Z.ltb_lt]; lia).
      reflexivity.
    + intros r e Hget Hs He Hj. rewrite Hget. cbn [bind]. unfold open_meteo_answer, raise_for_status.
      replace ((400 <=? status_code r)%Z && (status_code r <? 600)%Z) with false.
      * cbn [bind]. rewrite Hj. cbn [bind].
        destruct e; try reflexivity. exfalso. eapply He. reflexivity.
      * symmetry. apply andb_false_iff.
        destruct (Z.leb_spec 400 (status_code r)); [right | left; reflexivity].
        apply Z.ltb_ge. lia.
    + intros r data v Hget Hs Hj Hv Hf. rewrite Hget. cbn [bind].
      unfold open_meteo_answer, raise_for_status.
      replace ((400 <=? status_code r)%Z && (status_code r <? 600)%Z) with false.
      * cbn [bind]. rewrite Hj. cbn [bind]. rewrite Hv. cbn [bind].
        destruct v as [x|]; [rewrite Hf |]; reflexivity.
      * symmetry. apply andb_false_iff.
        destruct (Z.leb_spec 400 (status_code r)); [right | left; reflexivity].
        apply Z.ltb_ge. lia.
  - reflexivity.
Qed.

Lemma geocode_location_fallback_witness :
  snd (geocode_location Stub.nominatim_geocode
         (fun _ _ _ => Ok {| status_code := 200; resp_json := Ok (JObj [("results", JArr [])]);
                            http_error_text := "" |})
         Stub.parse_float "Nowhere")
  = Raise (HTTPException 404 LOCATION_NOT_FOUND).
Proof.
  destruct (geocode_location_fallback Stub.nominatim_geocode
              (fun _ _ _ => Ok {| status_code := 200; resp_json := Ok (JObj [("results", JArr [])]);
                                 http_error_text := "" |})
              Stub.parse_float "Nowhere") as (_ & _ & H & _).
  destruct H as (_ & _ & _ & _ & _ & H404).
  - right. exists (LibraryError "Service timed out"). reflexivity.
  - apply (H404 {| status_code := 200; resp_json := Ok (JObj [("results", JArr [])]);
                   http_error_text := "" |} (JObj [("results", JArr [])]) (Some (JArr [])));
      try reflexivity.
    cbn [status_code]. lia.
Defined.

End GeocodeSpec.

(* ------------------------------------------------------------------ *)
(** ** Module start-up *)

Module StartupSpec.
Import Startup.
Local Open Scope string_scope.

(** Claim C4, as the code has it.  Importing the module calls
    [swe.set_ephe_path] twice: first with [BASE_DIR/ephe], then with the
    relative path ["./ephe"], which stays in force.  The Swiss Ephemeris
    resolves ["./ephe"] against the working directory of the process, not
    against the directory of [app.py]: started from [/tmp] with the code in
    [/srv/app], the data file is looked up in [/tmp/ephe], while the logged
    [EPHE_PATH] is [/srv/app/ephe].  Start-up itself does not fail when the
    directory is missing: it prints [EPHE exists? False]. *)
Theorem module_init_ephe_path (cwd : string) (path_exists : string -> bool) (file : string) :
  ephe_path_calls (module_init cwd path_exists file) =
    [path_join (dirname (abspath cwd file)) "ephe"; "./ephe"] /\
  current_ephe_path (module_init cwd path_exists file) = "./ephe" /\
  (let st := module_init "/tmp" (fun _ => false) "/srv/app/app.py" in
   stdout_lines st = ["EPHE_PATH = /srv/app/ephe"; "EPHE exists? False"; "seas exists? False"] /\
   ephe_file "/tmp" (current_ephe_path st) "seas_18.se1" = "/tmp/ephe/seas_18.se1" /\
   ephe_file "/tmp" (hd "" (ephe_path_calls st)) "seas_18.se1" = "/srv/app/ephe/seas_18.se1").
Proof.
  split; [reflexivity |]. split; [reflexivity |].
  vm_compute. split; [reflexivity | split; reflexivity].
Qed.

End StartupSpec.

(* ------------------------------------------------------------------ *)
(** ** Time zone lookup *)

Module TimezoneSpec.
Import Float64 Py App.
Local Open Scope Z_scope.
Local Open Scope string_scope.

(** Claim C7.  [resolve_timezone_name] returns the name found by
    [timezone_at] when it is a non-empty string; otherwise the one found by
    [closest_timezone_at] when that is a non-empty string; when both give
    [None] or [""] it raises HTTP 422.  Every name it returns comes from one
    of the two lookups, and every exception it raises is that 422 or an
    exception of one of the two lookups. *)
Theorem resolve_timezone_name_spec
  (timezone_at closest_timezone_at : Q -> Q -> result (option string)) (lat lon : Q) :
  let r := resolve_timezone_name timezone_at closest_timezone_at lat lon in
  (forall s, timezone_at lat lon = Ok (Some s) -> s <> "" -> r = Ok s) /\
  (forall o, timezone_at lat lon = Ok o -> str_truthy o = false ->
     (forall s, closest_timezone_at lat lon = Ok (Some s) -> s <> "" -> r = Ok s) /\
     (forall o', closest_timezone_at lat lon = Ok o' -> str_truthy o' = false ->
        r = Raise (HTTPException 422 TIMEZONE_UNRESOLVED))) /\
  (forall s, r = Ok s ->
     s <> "" /\ (timezone_at lat lon = Ok (Some s) \/ closest_timezone_at lat lon = Ok (Some s))) /\
  (forall e, r = Raise e ->
     e = HTTPException 422 TIMEZONE_UNRESOLVED \/
     timezone_at lat lon = Raise e \/ closest_timezone_at lat lon = Raise e).
Proof.
  intros r. unfold r, resolve_timezone_name.
  split; [| split; [| split]].
  - intros s Ht Hs. apply String.eqb_neq in Hs.
    rewrite Ht. simpl. rewrite Hs. simpl. rewrite Hs. reflexivity.
  - intros o Ht Ho. rewrite Ht. simpl. rewrite Ho. simpl. split.
    + intros s Hc Hs. apply String.eqb_neq in Hs.
      rewrite Hc. simpl. rewrite Hs. reflexivity.
    + intros o' Hc Ho'. rewrite Hc. simpl. rewrite Ho'. reflexivity.
  - intros s.
    destruct (timezone_at lat lon) as [o|e] eqn:Ht; simpl; [| discriminate].
    assert (Hc : forall s0, (if negb (str_truthy s0) then Raise (HTTPException 422 TIMEZONE_UNRESOLVED)
                 else match s0 with Some s1 => Ok s1 | None => Raise (HTTPException 422 TIMEZONE_UNRESOLVED) end)
                 = Ok s -> s0 = Some s /\ s <> "").
    { intros [s1|]; simpl; [| discriminate].
      destruct (String.eqb_spec s1 "") as [E|E]; simpl; [discriminate |].
      intros H. injection H as <-. split; [reflexivity | exact E]. }
    destruct (negb (str_truthy o)).
    + destruct (closest_timezone_at lat lon) as [o'|e] eqn:Hc'; simpl; [| discriminate].
      intros H. destruct (Hc _ H) as [-> Hs]. split; [exact Hs | right; reflexivity].
    + simpl. intros H. destruct (Hc _ H) as [-> Hs]. split; [exact Hs | left; reflexivity].
  - intros e.
    destruct (timezone_at lat lon) as [o|e'] eqn:Ht; simpl;
      [| intros H; injection H as <-; right; left; reflexivity].
    assert (Hc : forall s0, (if negb (str_truthy s0) then Raise (HTTPException 422 TIMEZONE_UNRESOLVED)
                 else match s0 with Some s1 => Ok s1 | None => Raise (HTTPException 422 TIMEZONE_UNRESOLVED) end)
                 = Raise e -> e = HTTPException 422 TIMEZONE_UNRESOLVED).
    { intros [s1|]; simpl; [| intros H; injection H as <-; reflexivity].
      destruct (String.eqb_spec s1 "") as [E|E]; simpl; [| discriminate].
      intros H. injection H as <-. reflexivity. }
    destruct (negb (str_truthy o)).
    + destruct (closest_timezone_at lat lon) as [o'|e'] eqn:Hc'; simpl;
        [| intros H; injection H as <-; right; right; reflexivity].
      intros H. left. exact (Hc _ H).
    + simpl. intros H. left. exact (Hc _ H).
Qed.

Lemma resolve_timezone_name_spec_witness :
  resolve_timezone_name (fun _ _ => Ok None) Stub.timezone_at 0 0 = Ok "America/New_York".
Proof.
  destruct (resolve_timezone_name_spec (fun _ _ => Ok None) Stub.timezone_at 0 0)
    as (_ & H & _).
  apply (H None); [reflexivity | reflexivity | reflexivity | discriminate].
Defined.

End TimezoneSpec.

(* ------------------------------------------------------------------ *)
(** ** The [/chart] handler *)

Module ChartSpec.
Import Float64 Py Zodiac App AppFacts.
Local Open Scope string_scope.

Section Handler.
Variable calc_ut : Q -> Z -> Z -> result (list Q * Z).
Variable house_pos : Q -> Q -> Q -> Q * Q -> string -> result Q.
Variable houses_ex : Q -> Q -> Q -> string -> result (list Q * list Q).
Variable julday : Z -> Z -> Z -> Q -> result Q.
Variable nominatim_geocode : string -> result (option location).
Variable requests_get : string -> list (string * param) -> Z -> result response.
Variable parse_float : string -> result Q.
Variable timezone_at : Q -> Q -> result (option string).
Variable closest_timezone_at : Q -> Q -> result (option string).
Variable tzinfo : Type.
Variable ZoneInfo : string -> result tzinfo.
Variable import_tzdata : result unit.
Variable make_datetime : Z -> Z -> Z -> Z -> Z -> tzinfo -> result datetime.
Variable astimezone_utc : datetime -> result datetime.

Lemma map_succ_seq_12 :
  map (fun k : nat => (1 + Z.of_nat k)%Z) (seq 0 12) = [1; 2; 3; 4; 5; 6; 7; 8; 9; 10; 11; 12]%Z.
Proof. reflexivity. Qed.

(** Claim C8.  When [swe.houses_ex] returns 12 cusps, or 13 entries whose
    first one is unused, a successful [chart] reports exactly twelve house
    cusps, numbered 1 to 12 in order, each with a sign of [SIGNS]. *)
Theorem chart_house_cusps (req : ChartRequest) (out : chart_out) :
  (forall jd lat lon hsys cusps ascmc,
     houses_ex jd lat lon hsys = Ok (cusps, ascmc) ->
     length cusps = 12%nat \/ length cusps = 13%nat) ->
  chart calc_ut house_pos houses_ex julday nominatim_geocode requests_get parse_float
         timezone_at closest_timezone_at tzinfo ZoneInfo import_tzdata make_datetime
         astimezone_utc req = Ok out ->
  map c_house (house_cusps out) = [1; 2; 3; 4; 5; 6; 7; 8; 9; 10; 11; 12]%Z /\
  Forall (fun c => In (c_sign c) SIGNS) (house_cusps out).
Proof.
  intros Hlen H. unfold chart in H. peel H.
  injection H as <-. cbn [house_cusps].
  match goal with
  | Hh : houses_ex _ _ _ _ = Ok (_, _) |- _ => pose proof (Hlen _ _ _ _ _ _ Hh) as Hl
  end.
  match goal with
  | Hc : cusps_loop 1 ?cl = Ok ?co |- _ =>
      destruct (cusps_loop_spec _ _ _ Hc) as [Hm Hf];
      assert (Hcl : length cl = 12%nat)
  end.
  { match goal with |- length (if ?b then _ else _) = _ => destruct b eqn:Eb end.
    - apply Z.eqb_eq in Eb. lia.
    - apply Z.eqb_neq in Eb. rewrite length_skipn. lia. }
  rewrite Hcl, map_succ_seq_12 in Hm. split; [exact Hm | exact Hf].
Qed.

(** Claim C9.  A successful [chart] reports the eleven bodies of [PLANETS],
    in their order, each once; the [retrograde] flag of each is true
    exactly when the longitude speed [xx[3]] that [swe.calc_ut] returns for
    that body, at the reported Julian day, is negative. *)
Theorem chart_planets_retrograde (req : ChartRequest) (out : chart_out) :
  chart calc_ut house_pos houses_ex julday nominatim_geocode requests_get parse_float
         timezone_at closest_timezone_at tzinfo ZoneInfo import_tzdata make_datetime
         astimezone_utc req = Ok out ->
  map fst (planets out) =
    ["Sun"; "Moon"; "Mercury"; "Venus"; "Mars"; "Jupiter"; "Saturn"; "Uranus";
     "Neptune"; "Pluto"; "Node(M)"] /\
  NoDup (map fst (planets out)) /\
  Forall (fun ne : string * planet_out => exists body xx f speed,
     In (fst ne, body) PLANETS /\
     calc_ut (julian_day_ut (input out)) body FLAGS = Ok (xx, f) /\
     py_index xx 3 = Ok speed /\
     (p_retrograde (snd ne) = true <-> (speed < 0)%Q)) (planets out).
Proof.
  intros H. unfold chart in H. peel H.
  injection H as <-. cbn [planets input julian_day_ut].
  assert (Hnd : NoDup (map fst PLANETS)).
  { cbn. repeat constructor; cbn; intuition discriminate. }
  match goal with
  | Hp : planets_loop _ _ _ _ _ _ _ PLANETS [] = Ok _ |- _ =>
      destruct (planets_loop_spec _ _ _ _ _ _ _ _ _ _ Hp) as [Hk Hf];
      [exact Hnd | intros nb Hnb; exact Hnb | constructor |]
  end.
  cbn [map app] in Hk. rewrite Hk.
  split; [reflexivity |]. split; [exact Hnd | exact Hf].
Qed.

End Handler.

Lemma chart_house_cusps_witness :
  exists out, Stub.chart0 Stub.req0 = Ok out /\
  map c_house (house_cusps out) = [1; 2; 3; 4; 5; 6; 7; 8; 9; 10; 11; 12]%Z /\
  Forall (fun c => In (c_sign c) SIGNS) (house_cusps out).
Proof.
  remember (Stub.chart0 Stub.req0) as r eqn:E. destruct r as [out | e].
  - exists out. split; [reflexivity |].
    apply (chart_house_cusps Stub.calc_ut Stub.house_pos Stub.houses_ex Stub.julday
             Stub.nominatim_geocode Stub.requests_get Stub.parse_float Stub.timezone_at
             Stub.closest_timezone_at unit Stub.ZoneInfo Stub.import_tzdata
             Stub.make_datetime Stub.astimezone_utc Stub.req0 out).
    + intros jd lat lon hsys cusps ascmc Hh. unfold Stub.houses_ex in Hh.
      injection Hh as <- _. right. reflexivity.
    + symmetry. exact E.
  - vm_compute in E. discriminate E.
Defined.

Lemma chart_planets_retrograde_witness :
  exists out, Stub.chart0 Stub.req0 = Ok out /\
  map fst (planets out) =
    ["Sun"; "Moon"; "Mercury"; "Venus"; "Mars"; "Jupiter"; "Saturn"; "Uranus";
     "Neptune"; "Pluto"; "Node(M)"] /\
  NoDup (map fst (planets out)) /\
  Forall (fun ne : string * planet_out => exists body xx f speed,
     In (fst ne, body) PLANETS /\
     Stub.calc_ut (julian_day_ut (input out)) body FLAGS = Ok (xx, f) /\
     py_index xx 3 = Ok speed /\
     (p_retrograde (snd ne) = true <-> (speed < 0)%Q)) (planets out).
Proof.
  remember (Stub.chart0 Stub.req0) as r eqn:E. destruct r as [out | e].
  - exists out. split; [reflexivity |].
    apply (chart_planets_retrograde Stub.calc_ut Stub.house_pos Stub.houses_ex Stub.julday
             Stub.nominatim_geocode Stub.requests_get Stub.parse_float Stub.timezone_at
             Stub.closest_timezone_at unit Stub.ZoneInfo Stub.import_tzdata
             Stub.make_datetime Stub.astimezone_utc Stub.req0 out).
    symmetry. exact E.
  - vm_compute in E. discriminate E.
Defined.

End ChartSpec.

(* ------------------------------------------------------------------ *)
(** ** The formatter on every float *)

Module FormatFacts.
Import Float64 Float64Facts Py Zodiac ZodiacFacts.
Local Open Scope Q_scope.

Lemma Qred_idem (q : Q) : Qred (Qred q) = Qred q.
Proof. apply Qred_complete, Qred_correct. Qed.

Lemma rnd64_red (x : Q) : Qred (rnd64 x) = rnd64 x.
Proof.
  unfold rnd64; cbv zeta. destruct (qeqb (Qred x) 0); [reflexivity | apply Qred_idem].
Qed.

(** Every result of the rounding is a float. *)
Lemma rnd64_is_repr (x : Q) : repr (rnd64 x).
Proof.
  destruct (Qeq_dec x 0) as [Hx|Hx].
  - rewrite rnd64_zero by exact Hx. exists 0%Z, 0%Z.
    split; [reflexivity | split; [reflexivity | lia]].
  - rewrite rnd64_nonzero by exact Hx.
    set (y := Qred x). set (e := fexp y). set (n := rhe (y / pow2 e)).
    assert (Hy : ~ y == 0) by (unfold y; rewrite Qred_correct; exact Hx).
    pose proof (fexp_bound y Hy) as Hb. fold e in Hb.
    assert (He : (-1074 <= e)%Z) by apply fexp_ge.
    assert (P : 0 < pow2 e) by apply pow2_pos.
    assert (P53 : pow2 (e + 53) == inject_Z (2 ^ 53) * pow2 e).
    { rewrite pow2_plus, (pow2_Z 53) by lia. ring. }
    assert (Bq : - inject_Z (2 ^ 53) <= y / pow2 e /\ y / pow2 e <= inject_Z (2 ^ 53)).
    { rewrite P53 in Hb. apply Qabs_Qlt_condition in Hb. destruct Hb as [B1 B2].
      split.
      - apply Qle_shift_div_l; [exact P |]. apply Qlt_le_weak.
        setoid_replace (- inject_Z (2 ^ 53) * pow2 e) with (- (inject_Z (2 ^ 53) * pow2 e)) by ring.
        exact B1.
      - apply Qle_shift_div_r; [exact P |]. apply Qlt_le_weak. exact B2. }
    assert (Bn : (- 2 ^ 53 <= n <= 2 ^ 53)%Z).
    { destruct Bq as [B1 B2]. split.
      - rewrite <- (rhe_Z (- 2 ^ 53)). apply rhe_mono.
        rewrite inject_Z_opp. exact B1.
      - rewrite <- (rhe_Z (2 ^ 53)). apply rhe_mono. exact B2. }
    destruct (Z_lt_le_dec (Z.abs n) (2 ^ 53)) as [Hn|Hn].
    + exists n, e. split; [apply Qred_correct | split; [exact Hn | exact He]].
    + assert (E : n = (2 * 2 ^ 52)%Z \/ n = (2 * - 2 ^ 52)%Z) by lia.
      exists (if (0 <=? n)%Z then 2 ^ 52 else - 2 ^ 52)%Z, (e + 1)%Z.
      split; [| split; [destruct (0 <=? n)%Z; reflexivity | lia]].
      rewrite Qred_correct, pow2_plus. change (pow2 1) with (2 # 1).
      destruct E as [E|E]; rewrite E; [replace (0 <=? 2 * 2 ^ 52)%Z with true by reflexivity
                                       | replace (0 <=? 2 * - 2 ^ 52)%Z with false by reflexivity];
        rewrite inject_Z_mult; change (inject_Z 2) with (2 # 1); ring.
Qed.

(** [x % 360.0] always lies in [[0, 360]]. *)
Lemma normalize_range (x : Q) : 0 <= normalize_deg x /\ normalize_deg x <= 360.
Proof.
  destruct (Qlt_le_dec x 0) as [Hneg|Hnn].
  - destruct (c_fmod_neg x 360 Hneg eq_refl) as [Hlo Hhi].
    unfold normalize_deg. rewrite py_mod_neg by exact Hneg.
    destruct (qeqb (c_fmod x 360) 0).
    + split; discriminate.
    + unfold fadd. split.
      * apply rnd64_nonneg. lra.
      * apply rnd64_le; [lra | lra | apply (repr_Z 360); lia].
  - destruct (normalize_nonneg x Hnn) as (Hn & Hlo & Hhi). rewrite Hn.
    split; [exact Hlo | apply Qlt_le_weak; exact Hhi].
Qed.

Lemma normalize_red (x : Q) : Qred (normalize_deg x) = normalize_deg x.
Proof.
  destruct (Qlt_le_dec x 0) as [Hneg|Hnn].
  - unfold normalize_deg. rewrite py_mod_neg by exact Hneg.
    destruct (qeqb (c_fmod x 360) 0); [reflexivity | apply rnd64_red].
  - destruct (normalize_nonneg x Hnn) as (Hn & _). rewrite Hn. unfold c_fmod. apply Qred_idem.
Qed.

(** The result of [x % 360.0] on a float is a float. *)
Lemma normalize_is_repr (x : Q) : repr x -> repr (normalize_deg x).
Proof.
  intros Hx. destruct (Qlt_le_dec x 0) as [Hneg|Hnn].
  - unfold normalize_deg. rewrite py_mod_neg by exact Hneg.
    destruct (qeqb (c_fmod x 360) 0); [| apply rnd64_is_repr].
    exists 0%Z, 0%Z. split; [reflexivity | split; [reflexivity | lia]].
  - destruct (normalize_nonneg x Hnn) as (Hn & Hlo & Hhi). rewrite Hn.
    destruct (c_fmod_nonneg x 360 Hnn eq_refl) as (Hm & Rlo & Rhi).
    assert (Ht : (0 <= Qfloor (x / 360))%Z).
    { change 0%Z with (Qfloor 0). apply Qfloor_resp_le.
      apply Qle_shift_div_l; [reflexivity |]. rewrite Qmult_0_l. exact Hnn. }
    apply (repr_rem x 360 _ (Qfloor (x / 360)) Hx (repr_Z 360 ltac:(lia))).
    + rewrite Hm, Qred_correct. reflexivity.
    + rewrite !Qabs_pos by (try exact Hlo; exact Hnn).
      rewrite Hm, Qred_correct.
      assert (0 <= inject_Z (Qfloor (x / 360)) * 360)
        by (apply Qmult_le_0_compat; [change 0 with (inject_Z 0); rewrite <- Zle_Qle; exact Ht | discriminate]).
      lra.
    + rewrite Qabs_pos by exact Hlo. exact Hhi.
Qed.

(** [normalize_deg] returns [360.0] exactly, or something below it. *)
Lemma normalize_lt_or_360 (x : Q) : normalize_deg x < 360 \/ normalize_deg x = 360.
Proof.
  destruct (normalize_range x) as [_ Hhi].
  apply Qle_lteq in Hhi as [H|H]; [left; exact H | right].
  rewrite <- normalize_red. apply Qred_complete in H. rewrite H. reflexivity.
Qed.

Lemma normalize_nonneg_lt (x : Q) : 0 <= x -> normalize_deg x < 360.
Proof. intros Hx. destruct (normalize_nonneg x Hx) as (Hn & _ & Hhi). rewrite Hn. exact Hhi. Qed.

(** The formatter once [lon = normalize_deg(x)] is known to lie in [[0, 360)]. *)
Lemma zodiac_lon (x : Q) :
  let lon := normalize_deg x in
  let k := Qfloor (lon / 30) in
  lon < 360 ->
  (0 <= k <= 11)%Z /\
  exists s, py_index SIGNS k = Ok s /\
            zodiac_sign_and_pos x = Ok (s, rnd64 (lon - inject_Z k * 30)).
Proof.
  intros lon k Lhi.
  assert (Llo : 0 <= lon) by apply normalize_range.
  destruct (floordiv_small lon Llo Lhi) as [Hfd Hk]. fold k in Hfd, Hk.
  assert (Hint : py_int (py_floordiv lon 30) = k).
  { rewrite Hfd, py_int_nonneg, Qfloor_Z; [reflexivity |].
    change 0 with (inject_Z 0). rewrite <- Zle_Qle. lia. }
  split; [exact Hk |].
  destruct (py_index_ok SIGNS k) as (s & Hs & _); [simpl; lia |].
  exists s. split; [exact Hs |].
  unfold zodiac_sign_and_pos; cbv zeta. fold lon. rewrite Hint, Hs. simpl bind.
  unfold fmul at 1. rewrite (rnd64_repr (inject_Z k * 30)).
  - unfold fsub. do 2 f_equal. apply rnd64_comp. rewrite Qred_correct. reflexivity.
  - apply (repr_comp (inject_Z (k * 30))); [rewrite inject_Z_mult; reflexivity |].
    apply repr_Z. lia.
Qed.

Lemma zodiac_at_360 (x : Q) : normalize_deg x = 360 -> zodiac_sign_and_pos x = Raise IndexError.
Proof.
  intros H. unfold zodiac_sign_and_pos; cbv zeta. rewrite H. vm_compute. reflexivity.
Qed.

(** The formatter on every float: in range, or [IndexError] at [360.0]. *)
Lemma zodiac_cases (x : Q) : repr x ->
  let lon := normalize_deg x in
  let k := Qfloor (lon / 30) in
  (lon < 360 /\
   exists s p, zodiac_sign_and_pos x = Ok (s, p) /\ py_index SIGNS k = Ok s /\
               p == lon - inject_Z k * 30 /\ 0 <= p /\ p < 30) \/
  (lon = 360 /\ x < 0 /\ zodiac_sign_and_pos x = Raise IndexError).
Proof.
  intros Hx lon k.
  destruct (normalize_lt_or_360 x) as [Hlt|Heq].
  - left. split; [exact Hlt |].
    destruct (zodiac_lon x Hlt) as (Hk & s & Hs & Hz). fold lon k in Hk, Hs, Hz.
    assert (Llo : 0 <= lon) by apply normalize_range.
    assert (Hr : repr lon) by (apply normalize_is_repr; exact Hx).
    destruct (c_fmod_nonneg lon 30 Llo eq_refl) as (_ & Rlo & Rhi). fold k in Rlo, Rhi.
    assert (Rle : lon - inject_Z k * 30 <= lon).
    { assert (0 <= inject_Z k * 30)
        by (apply Qmult_le_0_compat; [change 0 with (inject_Z 0); rewrite <- Zle_Qle; lia | discriminate]).
      lra. }
    assert (Hp : repr (lon - inject_Z k * 30)).
    { apply (repr_rem lon 30 _ k Hr (repr_Z 30 ltac:(lia))); [reflexivity | |].
      - rewrite !Qabs_pos; [exact Rle | exact Llo | exact Rlo].
      - rewrite Qabs_pos by exact Rlo. exact Rhi. }
    rewrite (rnd64_repr _ Hp) in Hz.
    exists s, (Qred (lon - inject_Z k * 30)).
    split; [exact Hz |]. split; [exact Hs |].
    rewrite Qred_correct. split; [reflexivity |]. split; assumption.
  - right. split; [exact Heq |]. split; [| apply zodiac_at_360; exact Heq].
    destruct (Qlt_le_dec x 0) as [H|H]; [exact H |].
    pose proof (normalize_nonneg_lt x H) as L. rewrite Heq in L.
    exfalso. exact (Qlt_irrefl _ L).
Qed.

(** What a successful formatter call returns on a float. *)
Lemma zodiac_ok_range (x : Q) (s : string) (p : Q) :
  repr x -> zodiac_sign_and_pos x = Ok (s, p) -> In s SIGNS /\ 0 <= p /\ p < 30.
Proof.
  intros Hx H. destruct (zodiac_cases x Hx) as [(_ & s' & p' & Hz & Hs & _ & P0 & P30) | (_ & _ & Hz)];
    rewrite Hz in H; [| discriminate H].
  injection H as <- <-. split; [exact (py_index_In _ _ _ Hs) | split; assumption].
Qed.

(** [round_to_arcminute] on a position in [[0, 30)]. *)
Lemma round_to_arcminute_range (pos : Q) : 0 <= pos -> pos < 30 ->
  (0 <= fst (round_to_arcminute pos) <= 29)%Z /\ (0 <= snd (round_to_arcminute pos) <= 59)%Z.
Proof.
  intros H0 H30.
  unfold round_to_arcminute; cbv zeta.
  set (d0 := py_int pos).
  assert (Hd0 : d0 = Qfloor pos) by (apply py_int_nonneg; exact H0).
  assert (Dlo : (0 <= d0)%Z).
  { rewrite Hd0. change 0%Z with (Qfloor 0). apply Qfloor_resp_le. exact H0. }
  assert (Dhi : (d0 <= 29)%Z).
  { rewrite Hd0. assert (A : inject_Z (Qfloor pos) < inject_Z 30)
      by (apply (Qle_lt_trans _ pos); [apply Qfloor_le | exact H30]).
    rewrite <- Zlt_Qlt in A. lia. }
  destruct (frac_bounds pos) as [Flo Fhi]. rewrite <- Hd0 in Flo, Fhi.
  set (f := fsub pos (inject_Z d0)).
  assert (Hf : 0 <= f /\ f <= 1).
  { split; [apply rnd64_nonneg; exact Flo |].
    apply rnd64_le; [exact Flo | apply Qlt_le_weak; exact Fhi | apply (repr_Z 1); lia]. }
  set (g := fmul f 60).
  assert (Hg : 0 <= g /\ g <= 60).
  { destruct Hf as [Hf0 Hf1].
    assert (P0 : 0 <= f * 60) by (apply Qmult_le_0_compat; [exact Hf0 | discriminate]).
    split; [apply rnd64_nonneg; exact P0 |].
    apply rnd64_le; [exact P0 | | apply (repr_Z 60); lia].
    apply (Qle_trans _ (1 * 60)); [apply Qmult_le_compat_r; [exact Hf1 | discriminate] | apply Qle_refl]. }
  set (m0 := rhe g).
  assert (Hm : (0 <= m0 <= 60)%Z).
  { destruct Hg as [Hg0 Hg1]. split.
    - rewrite <- (rhe_Z 0). apply rhe_mono. exact Hg0.
    - rewrite <- (rhe_Z 60). apply rhe_mono. exact Hg1. }
  destruct (Z.eqb_spec m0 60) as [E|E].
  - destruct (Z.eqb_spec (d0 + 1) 30) as [E2|E2]; simpl; lia.
  - simpl; lia.
Qed.


(** [round] moves its argument by at most one half. *)
Lemma rhe_err (q : Q) : Qabs (inject_Z (rhe q) - q) <= 1 # 2.
Proof.
  destruct (frac_bounds q) as [F0 F1].
  apply Qabs_Qle_condition.
  destruct (rhe_cases q) as [[E B]|[E B]]; rewrite E.
  - split; lra.
  - rewrite inject_Z_plus. change (inject_Z 1) with 1. split; lra.
Qed.

(** The rounding error is at most half a unit in the last place. *)
Lemma rnd64_err (x : Q) (g : Z) :
  Qabs x < pow2 (g + 53) -> (-1074 <= g)%Z -> Qabs (rnd64 x - x) <= pow2 g * (1 # 2).
Proof.
  intros Hlt Hg. assert (Pg : 0 < pow2 g) by apply pow2_pos.
  destruct (Qeq_dec x 0) as [Hx|Hx].
  - rewrite rnd64_zero by exact Hx. rewrite Hx.
    change (Qabs (0 - 0)) with 0. apply Qmult_le_0_compat; [apply Qlt_le_weak; exact Pg | discriminate].
  - rewrite rnd64_nonzero by exact Hx.
    set (y := Qred x). assert (Hy : y == x) by apply Qred_correct.
    assert (Hy0 : ~ y == 0) by (rewrite Hy; exact Hx).
    set (e := fexp y).
    assert (He : (e <= g)%Z) by (apply fexp_le; [exact Hy0 | rewrite Hy; exact Hlt | exact Hg]).
    assert (P : 0 < pow2 e) by apply pow2_pos.
    set (q := y / pow2 e).
    pose proof (rhe_err q) as Hq.
    rewrite Qred_correct.
    setoid_replace (inject_Z (rhe q) * pow2 e - x) with ((inject_Z (rhe q) - q) * pow2 e)
      by (unfold q; rewrite <- Hy; field; apply pow2_nonzero).
    rewrite Qabs_Qmult, (Qabs_pos (pow2 e)) by (apply Qlt_le_weak; exact P).
    apply (Qle_trans _ ((1 # 2) * pow2 e)).
    + apply Qmult_le_compat_r; [exact Hq | apply Qlt_le_weak; exact P].
    + rewrite Qmult_comm. apply Qmult_le_compat_r; [apply pow2_le_mono; exact He | discriminate].
Qed.

(** Accuracy of [round_to_arcminute] on a float position in [[0, 30)]:
    [60 deg + min] is within half an arcminute (plus the error of one
    float product) of [60 pos], except for the clamp to [(29, 59)]. *)
Lemma round_to_arcminute_accurate (pos : Q) : repr pos -> 0 <= pos -> pos < 30 ->
  Qabs (inject_Z (60 * fst (round_to_arcminute pos) + snd (round_to_arcminute pos)) - 60 * pos)
    <= (1 # 2) + pow2 (-48) \/
  (round_to_arcminute pos = (29%Z, 59%Z) /\ 1799 < 60 * pos).
Proof.
  intros Hr H0 H30. unfold round_to_arcminute; cbv zeta.
  set (d0 := py_int pos).
  assert (Hd0 : d0 = Qfloor pos) by (apply py_int_nonneg; exact H0).
  assert (Dlo : (0 <= d0)%Z).
  { rewrite Hd0. change 0%Z with (Qfloor 0). apply Qfloor_resp_le. exact H0. }
  destruct (frac_bounds pos) as [Flo Fhi]. rewrite <- Hd0 in Flo, Fhi.
  assert (Hfr : repr (pos - inject_Z d0)).
  { apply (repr_rem pos 1 _ d0 Hr (repr_Z 1 ltac:(lia))); [ring | |].
    - rewrite !Qabs_pos; [| exact H0 | exact Flo].
      assert (0 <= inject_Z d0) by (change 0 with (inject_Z 0); rewrite <- Zle_Qle; exact Dlo).
      lra.
    - rewrite Qabs_pos by exact Flo. exact Fhi. }
  set (f := fsub pos (inject_Z d0)).
  assert (Hf : f == pos - inject_Z d0) by (unfold f, fsub; rewrite (rnd64_repr _ Hfr); apply Qred_correct).
  set (g := fmul f 60).
  assert (Hg : Qabs (g - f * 60) <= pow2 (-48)).
  { setoid_replace (pow2 (-48)) with (pow2 (-47) * (1 # 2)) by (vm_compute; reflexivity).
    apply rnd64_err; [| lia].
    rewrite Qabs_pos by (rewrite Hf; apply Qmult_le_0_compat; [exact Flo | discriminate]).
    change (pow2 (-47 + 53)) with (64 # 1). rewrite Hf. lra. }
  set (m0 := rhe g).
  pose proof (rhe_err g) as Hm. fold m0 in Hm.
  assert (Pw : pow2 (-48) <= 1 # 4) by (vm_compute; discriminate).
  apply Qabs_Qle_condition in Hg, Hm. destruct Hg as [G1 G2]. destruct Hm as [M1 M2].
  destruct (Z.eqb_spec m0 60) as [E|E].
  - rewrite E in M1, M2. change (inject_Z 60) with 60 in M1, M2.
    destruct (Z.eqb_spec (d0 + 1) 30) as [E2|E2].
    + right. split; [reflexivity |].
      assert (D : inject_Z d0 = 29) by (replace d0 with 29%Z by lia; reflexivity).
      rewrite D in Hf. lra.
    + left. cbn [fst snd]. apply Qabs_Qle_condition.
      rewrite inject_Z_plus, inject_Z_mult, inject_Z_plus.
      change (inject_Z 60) with 60. change (inject_Z 1) with 1. change (inject_Z 0) with 0.
      split; lra.
  - left. cbn [fst snd]. apply Qabs_Qle_condition.
    rewrite inject_Z_plus, inject_Z_mult. change (inject_Z 60) with 60.
    split; lra.
Qed.

End FormatFacts.

(* ------------------------------------------------------------------ *)
(** ** Claim C10: where [normalize_deg] reaches [360.0] *)

Module NormalizeSpec.
Import Float64 Float64Facts Py Zodiac ZodiacFacts FormatFacts.
Local Open Scope Q_scope.

(** On [(-360, 0)], [fmod(x, 360.0)] is [x] itself. *)
Lemma c_fmod_small_neg (x : Q) : -360 < x -> x < 0 -> c_fmod x 360 == x.
Proof.
  intros Hlo Hhi. unfold c_fmod.
  assert (Hq : x / 360 < 0).
  { apply Qlt_shift_div_r; [reflexivity |]. rewrite Qmult_0_l. exact Hhi. }
  rewrite (py_int_neg _ Hq).
  assert (Hc : Qceiling (x / 360) = 0%Z).
  { unfold Qceiling. rewrite (Qfloor_unique (- (x / 360)) 0); [reflexivity | |].
    - change (inject_Z 0) with 0. lra.
    - change (inject_Z (0 + 1)) with 1.
      assert (- 1 < x / 360).
      { apply Qlt_shift_div_l; [reflexivity |]. lra. }
      lra. }
  rewrite Hc, Qred_correct. change (inject_Z 0) with 0. ring.
Qed.

(** A float of magnitude at least [360] is a multiple of [2^-44], and so
    is its remainder modulo [360.0]. *)
Lemma c_fmod_big_grid (x : Q) : repr x -> x <= -360 ->
  exists M : Z, c_fmod x 360 == inject_Z M * pow2 (-44).
Proof.
  intros (N & f & Hx & HN & Hf) Hle.
  assert (Hf44 : (-44 <= f)%Z).
  { destruct (Z_lt_le_dec f (-44)) as [Hlt|Hge]; [exfalso | exact Hge].
    pose proof (scaled_lt N f HN) as B. rewrite <- Hx in B.
    assert (B2 : pow2 (f + 53) <= pow2 8) by (apply pow2_le_mono; lia).
    change (pow2 8) with 256 in B2.
    rewrite Qabs_neg in B by lra. lra. }
  unfold c_fmod. set (t := py_int (x / 360)).
  exists (N * 2 ^ (f + 44) - t * (360 * 2 ^ 44))%Z.
  rewrite Qred_correct, Hx, (pow2_split f (-44)), (pow2_Z (f - -44)) by lia.
  replace (f - -44)%Z with (f + 44)%Z by lia.
  rewrite inject_Z_sub, !inject_Z_mult.
  change (pow2 (-44)) with (1 # 17592186044416).
  change (inject_Z 360 * inject_Z (2 ^ 44)) with (6333186975989760 # 1).
  ring.
Qed.

(** Below [-2^-45], [x % 360.0] stays below [360.0]. *)
Lemma normalize_neg_lt (x : Q) : repr x -> x < - pow2 (-45) -> normalize_deg x < 360.
Proof.
  intros Hr Hx. change (pow2 (-45)) with (1 # 35184372088832) in Hx.
  assert (Hneg : x < 0) by lra.
  destruct (c_fmod_neg x 360 Hneg eq_refl) as [Hlo Hhi].
  unfold normalize_deg. rewrite py_mod_neg by exact Hneg.
  destruct (qeqb (c_fmod x 360) 0) eqn:E0; [reflexivity |].
  assert (E0' : ~ c_fmod x 360 == 0) by (intros H; apply qeqb_spec in H; congruence).
  assert (Hm : c_fmod x 360 < - (1 # 35184372088832)).
  { destruct (Qlt_le_dec (-360) x) as [Hs|Hb].
    - rewrite (c_fmod_small_neg x Hs Hneg). exact Hx.
    - destruct (c_fmod_big_grid x Hr Hb) as [M HM].
      change (pow2 (-44)) with (1 # 17592186044416) in HM.
      rewrite HM in Hhi, E0' |- *.
      destruct (Z_lt_le_dec M 0) as [HM0|HM0].
      + assert (HM1 : inject_Z M <= -1)
          by (change (-1) with (inject_Z (-1)); rewrite <- Zle_Qle; lia).
        lra.
      + exfalso. destruct (Z.eq_dec M 0) as [->|HM1].
        * apply E0'. reflexivity.
        * assert (HM2 : 1 <= inject_Z M)
            by (change 1 with (inject_Z 1); rewrite <- Zle_Qle; lia).
          lra. }
  unfold fadd. set (v := c_fmod x 360 + 360).
  pose proof (rnd64_err v (-44)) as Herr.
  change (pow2 (-44 + 53)) with 512 in Herr.
  change (pow2 (-44)) with (1 # 17592186044416) in Herr.
  assert (Hv : 0 < v /\ v < 512) by (unfold v; split; lra).
  rewrite Qabs_pos in Herr by lra.
  specialize (Herr ltac:(lra) ltac:(lia)).
  apply Qabs_Qle_condition in Herr. destruct Herr as [_ Herr].
  unfold v in *. lra.
Qed.

(** On [[-2^-45, 0)], [x % 360.0] rounds [360 + x] up to [360.0]. *)
Lemma normalize_tiny_neg (x : Q) : - pow2 (-45) <= x -> x < 0 -> normalize_deg x = 360.
Proof.
  intros Hlo Hhi. change (pow2 (-45)) with (1 # 35184372088832) in Hlo.
  assert (Hm : c_fmod x 360 == x) by (apply c_fmod_small_neg; lra).
  unfold normalize_deg. rewrite py_mod_neg by exact Hhi.
  destruct (qeqb (c_fmod x 360) 0) eqn:E0.
  { apply qeqb_spec in E0. rewrite Hm in E0. lra. }
  unfold fadd. set (v := c_fmod x 360 + 360).
  assert (Hv : 360 - (1 # 35184372088832) <= v /\ v < 360) by (unfold v; rewrite Hm; split; lra).
  assert (Hv0 : ~ v == 0) by lra.
  rewrite rnd64_nonzero by exact Hv0.
  set (y := Qred v). assert (Hy : y == v) by apply Qred_correct.
  assert (Hy0 : ~ y == 0) by (rewrite Hy; exact Hv0).
  assert (Hfe : fexp y = (-44)%Z).
  { apply Z.le_antisymm.
    - apply fexp_le; [exact Hy0 | | lia].
      change (pow2 (-44 + 53)) with 512. rewrite Qabs_pos by lra. lra.
    - assert (Ha : 0 < Qabs y) by (rewrite Qabs_pos; lra).
      destruct (flog2_spec (Qabs y) Ha) as [_ Hup].
      assert (H8 : pow2 8 < pow2 (flog2 (Qabs y) + 1)).
      { apply (Qle_lt_trans _ (Qabs y)); [| exact Hup].
        change (pow2 8) with 256. rewrite Qabs_pos by lra. lra. }
      apply pow2_lt_inv in H8. unfold fexp. lia. }
  rewrite Hfe.
  change (y / pow2 (-44)) with (y * (17592186044416 # 1)).
  assert (Hfl : Qfloor (y * (17592186044416 # 1)) = 6333186975989759%Z).
  { apply Qfloor_unique.
    - change (inject_Z 6333186975989759) with (6333186975989759 # 1). lra.
    - change (inject_Z (6333186975989759 + 1)) with (6333186975989760 # 1). lra. }
  assert (Hr : rhe (y * (17592186044416 # 1)) = 6333186975989760%Z).
  { unfold rhe; cbv zeta. rewrite Hfl.
    change (inject_Z 6333186975989759) with (6333186975989759 # 1).
    destruct (Qcompare_spec (y * (17592186044416 # 1) - (6333186975989759 # 1)) (1 # 2)) as [E|E|E].
    - reflexivity.
    - exfalso. lra.
    - reflexivity. }
  rewrite Hr. vm_compute. reflexivity.
Qed.

(** Claim C10, as the code has it.  On every finite float [x],
    [normalize_deg x] lies in [[0, 360]].  Outside [[-2^-45, 0)] it is
    strictly below [360.0], the sign index [int(lon // 30)] computed by
    [zodiac_sign_and_pos] lies in [[0, 11]] and the lookup in [SIGNS]
    succeeds.  On the negative floats of [[-2^-45, 0)], [x % 360.0]
    rounds [360 + x] up to [360.0]: the sign index is [12] and
    [SIGNS[12]] raises [IndexError]. *)
Theorem normalize_deg_sign_index (x : Q) : repr x ->
  0 <= normalize_deg x /\ normalize_deg x <= 360 /\
  ((x < - pow2 (-45) \/ 0 <= x) ->
     normalize_deg x < 360 /\
     (0 <= py_int (py_floordiv (normalize_deg x) 30) <= 11)%Z /\
     exists r, zodiac_sign_and_pos x = Ok r) /\
  (- pow2 (-45) <= x < 0 ->
     normalize_deg x = 360 /\
     py_int (py_floordiv (normalize_deg x) 30) = 12%Z /\
     zodiac_sign_and_pos x = Raise IndexError).
Proof.
  intros Hr. destruct (normalize_range x) as [Llo Lhi].
  split; [exact Llo | split; [exact Lhi | split]].
  - intros Hx.
    assert (Hlt : normalize_deg x < 360)
      by (destruct Hx as [Hx|Hx]; [apply normalize_neg_lt | apply normalize_nonneg_lt]; assumption).
    destruct (floordiv_small (normalize_deg x) Llo Hlt) as [Hfd Hk].
    destruct (zodiac_lon x Hlt) as (_ & s & _ & Hz).
    split; [exact Hlt | split; [| eexists; exact Hz]].
    rewrite Hfd, py_int_nonneg, Qfloor_Z; [exact Hk |].
    change 0 with (inject_Z 0). rewrite <- Zle_Qle. lia.
  - intros [Hlo Hhi]. pose proof (normalize_tiny_neg x Hlo Hhi) as E.
    split; [exact E |]. split; [rewrite E; vm_compute; reflexivity |].
    apply zodiac_at_360. exact E.
Qed.

Lemma normalize_deg_sign_index_witness :
  normalize_deg (- pow2 (-45)) = 360 /\
  zodiac_sign_and_pos (- pow2 (-45)) = Raise IndexError /\
  normalize_deg (inject_Z (-725)) < 360 /\
  (exists r, zodiac_sign_and_pos (inject_Z (-725)) = Ok r).
Proof.
  assert (Hr : repr (- pow2 (-45))).
  { exists (-1)%Z, (-45)%Z. vm_compute. split; [reflexivity | split; [reflexivity | discriminate]]. }
  destruct (normalize_deg_sign_index _ Hr) as (_ & _ & _ & H).
  destruct (H (conj (Qle_refl _) eq_refl)) as (H1 & _ & H3).
  destruct (normalize_deg_sign_index (inject_Z (-725)) (repr_Z (-725) ltac:(lia))) as (_ & _ & H' & _).
  destruct (H' (or_introl eq_refl)) as (H4 & _ & H5).
  split; [exact H1 | split; [exact H3 | split; [exact H4 | exact H5]]].
Defined.

End NormalizeSpec.

(* ------------------------------------------------------------------ *)
(** ** Facts about the fields the handler reports *)

Module ChartFacts.
Import Float64 Float64Facts Py Zodiac ZodiacFacts App AppFacts FormatFacts.
Local Open Scope Q_scope.

Lemma Forall_dict_set {V : Type} (P : string * V -> Prop) (d : list (string * V)) (k : string) (v : V) :
  Forall P d -> P (k, v) -> Forall P (dict_set d k v).
Proof.
  induction d as [| [k' v'] d IH]; simpl; intros Hd Hp.
  - constructor; [exact Hp | constructor].
  - inversion Hd as [| ? ? Hh Ht]; subst.
    destruct (String.eqb k k'); constructor; auto.
Qed.

Lemma house_for_longitude_range
  (calc_ut : Q -> Z -> Z -> result (list Q * Z))
  (house_pos : Q -> Q -> Q -> Q * Q -> string -> result Q)
  (jd lat lon ecl : Q) (houses ascmc : list Q) (h : Z) :
  house_for_longitude calc_ut house_pos jd lat lon ecl houses ascmc = Ok h -> (1 <= h <= 12)%Z.
Proof.
  unfold house_for_longitude. intros H. peel H. injection H as <-.
  destruct (Z.ltb_spec (Qfloor a2) 1); [| destruct (Z.ltb_spec 12 (Qfloor a2))]; simpl; lia.
Qed.

(** A formatted longitude [x] (already a float): its sign, degree and
    minute are in range. *)
Lemma format_range (x : Q) (s : string) (p : Q) :
  repr x -> zodiac_sign_and_pos x = Ok (s, p) ->
  In s SIGNS /\ (0 <= fst (round_to_arcminute p) <= 29)%Z /\
  (0 <= snd (round_to_arcminute p) <= 59)%Z.
Proof.
  intros Hx Hz. destruct (zodiac_ok_range x s p Hx Hz) as (Hs & P0 & P30).
  split; [exact Hs | apply round_to_arcminute_range; assumption].
Qed.

(** An angle of the chart: the formatted [ascmc] entry [x]. *)
Lemma angle_fields (x : Q) (s : string) (p : Q) (d m : Z) :
  repr x -> zodiac_sign_and_pos x = Ok (s, p) -> round_to_arcminute p = (d, m) ->
  In s SIGNS /\ (0 <= d <= 29)%Z /\ (0 <= m <= 59)%Z /\
  0 <= normalize_deg x /\ normalize_deg x < 360.
Proof.
  intros Hx Hz Hr. destruct (format_range x s p Hx Hz) as (Hs & Hd & Hm).
  rewrite Hr in Hd, Hm. cbn [fst snd] in Hd, Hm.
  split; [exact Hs | split; [exact Hd | split; [exact Hm | split]]].
  - apply normalize_range.
  - destruct (zodiac_cases x Hx) as [(L & _) | (_ & _ & Hz')]; [exact L |].
    rewrite Hz' in Hz. discriminate Hz.
Qed.

Section Loops.
Variable calc_ut : Q -> Z -> Z -> result (list Q * Z).
Variable house_pos : Q -> Q -> Q -> Q * Q -> string -> result Q.

Lemma planets_loop_fields (jd lat lon : Q) (houses ascmc : list Q)
  (items : list (string * Z)) (acc out : list (string * planet_out)) :
  (forall name body xx f, In (name, body) items ->
     calc_ut jd body FLAGS = Ok (xx, f) -> Forall repr xx) ->
  planets_loop calc_ut house_pos jd lat lon houses ascmc items acc = Ok out ->
  Forall (fun ne : string * planet_out =>
    In (p_sign (snd ne)) SIGNS /\ (0 <= p_deg (snd ne) <= 29)%Z /\
    (0 <= p_min (snd ne) <= 59)%Z /\ (0 <= p_lon_deg (snd ne) <= 360)%Q /\
    (1 <= p_house (snd ne) <= 12)%Z) acc ->
  Forall (fun ne : string * planet_out =>
    In (p_sign (snd ne)) SIGNS /\ (0 <= p_deg (snd ne) <= 29)%Z /\
    (0 <= p_min (snd ne) <= 59)%Z /\ (0 <= p_lon_deg (snd ne) <= 360)%Q /\
    (1 <= p_house (snd ne) <= 12)%Z) out.
Proof.
  revert acc. induction items as [| [name body] items IH]; intros acc Hc H Hacc.
  - simpl in H. injection H as <-. exact Hacc.
  - rewrite planets_loop_cons in H. peel H.
    apply (IH _ (fun n b xx f Hi => Hc n b xx f (or_intror Hi)) H).
    apply Forall_dict_set; [exact Hacc |]. cbn [snd p_sign p_deg p_min p_lon_deg p_house].
    destruct a as [xx f].
    match goal with
    | Ec : calc_ut _ _ _ = Ok (xx, f), E0 : py_index (fst (xx, f)) 0 = Ok ?r0,
      Ez : zodiac_sign_and_pos _ = Ok (_, ?pp), Er : round_to_arcminute ?pp = (_, _),
      Eh : house_for_longitude _ _ _ _ _ _ _ _ = Ok _ |- _ =>
        assert (Hr0 : repr r0)
          by (apply (proj1 (Forall_forall _ _) (Hc _ _ _ _ (or_introl eq_refl) Ec));
              exact (py_index_In _ _ _ E0));
        destruct (format_range _ _ _ (normalize_is_repr _ Hr0) Ez) as (Hs & Hd & Hm);
        rewrite Er in Hd, Hm; cbn [fst snd] in Hd, Hm;
        split; [exact Hs | split; [exact Hd | split; [exact Hm | split]]];
        [apply normalize_range | exact (house_for_longitude_range _ _ _ _ _ _ _ _ _ Eh)]
    end.
Qed.

End Loops.

Lemma cusps_loop_fields (i : Z) (l : list Q) (out : list cusp_out) :
  Forall repr l -> cusps_loop i l = Ok out ->
  Forall (fun c => In (c_sign c) SIGNS /\ (0 <= c_deg c <= 29)%Z /\
                   (0 <= c_min c <= 59)%Z /\ (0 <= c_lon_deg c <= 360)%Q) out.
Proof.
  revert i out. induction l as [| x l IH]; intros i out Hl H.
  - simpl in H. injection H as <-. constructor.
  - inversion Hl as [| ? ? Hx Hl']; subst.
    rewrite cusps_loop_cons in H. peel H. injection H as <-.
    constructor.
    + cbn [c_sign c_deg c_min c_lon_deg].
      match goal with
      | Ez : zodiac_sign_and_pos _ = Ok (_, ?pp), Er : round_to_arcminute ?pp = (_, _) |- _ =>
          destruct (format_range _ _ _ (normalize_is_repr _ Hx) Ez) as (Hs & Hd & Hm);
          rewrite Er in Hd, Hm; cbn [fst snd] in Hd, Hm
      end.
      split; [exact Hs | split; [exact Hd | split; [exact Hm | apply normalize_range]]].
    + match goal with Hc : cusps_loop _ l = Ok _ |- _ => exact (IH _ _ Hl' Hc) end.
Qed.

End ChartFacts.

(* ------------------------------------------------------------------ *)
(** ** The formatters on every float *)

Module FormatterExtra.
Import Float64 Float64Facts Py Zodiac ZodiacFacts FormatFacts.
Local Open Scope Q_scope.

(** [zodiac_sign_and_pos] on any float [x]: either [lon = x % 360.0] is
    below [360], the call returns the sign [SIGNS[floor(lon / 30)]] and the
    exact offset [lon - 30 * floor(lon / 30)], which lies in [[0, 30)]; or
    [lon] rounds up to [360.0], which happens only for a negative [x], and
    the call raises [IndexError]. *)
Theorem zodiac_sign_and_pos_every_float (x : Q) : repr x ->
  let lon := normalize_deg x in
  let k := Qfloor (lon / 30) in
  (lon < 360 /\
   exists s p, zodiac_sign_and_pos x = Ok (s, p) /\ py_index SIGNS k = Ok s /\
               p == lon - inject_Z k * 30 /\ 0 <= p /\ p < 30) \/
  (lon = 360 /\ x < 0 /\ zodiac_sign_and_pos x = Raise IndexError).
Proof. intros Hx. exact (zodiac_cases x Hx). Qed.

(** Formatting a longitude that has already gone through [normalize_deg]
    never raises: for every [x], [zodiac_sign_and_pos(normalize_deg(x))]
    returns a sign of [SIGNS].  The handler formats planets and cusps this
    way. *)
Theorem zodiac_of_normalized_total (x : Q) :
  exists s p, zodiac_sign_and_pos (normalize_deg x) = Ok (s, p) /\ In s SIGNS.
Proof.
  destruct (normalize_range x) as [L0 _].
  destruct (zodiac_nonneg _ L0) as (_ & _ & _ & _ & s & Hs & Hz).
  eexists s, _. split; [exact Hz | exact (py_index_In _ _ _ Hs)].
Qed.

(** [normalize_deg] applied twice: the second application changes nothing,
    except when the first one returned [360.0] (a tiny negative input), which
    the second one maps to [0.0]. *)
Theorem normalize_deg_twice (x : Q) :
  normalize_deg (normalize_deg x) =
  if qeqb (normalize_deg x) 360 then 0 else normalize_deg x.
Proof.
  destruct (normalize_lt_or_360 x) as [L | E].
  - destruct (normalize_range x) as [L0 _].
    destruct (qeqb (normalize_deg x) 360) eqn:Q.
    { apply qeqb_spec in Q. rewrite Q in L. exfalso. exact (Qlt_irrefl _ L). }
    destruct (normalize_nonneg _ L0) as (En & _ & _). rewrite En.
    destruct (c_fmod_nonneg _ 360 L0 eq_refl) as (Em & _ & _). rewrite Em.
    rewrite (Qfloor_unique _ 0).
    + transitivity (Qred (normalize_deg x)); [apply Qred_complete; ring | apply normalize_red].
    + apply Qle_shift_div_l; [reflexivity |]. rewrite Qmult_0_l. exact L0.
    + apply Qlt_shift_div_r; [reflexivity |]. exact L.
  - rewrite E. vm_compute. reflexivity.
Qed.

(** [round_to_arcminute] on a float [pos] in [[0, 30)] (what the formatter
    passes it): [60 * d + m] is within half an arcminute (plus a rounding
    error below [2^-48]) of [60 * pos], except at the clamp, which returns
    [(29, 59)] when [pos] rounds to [30] degrees. *)
Theorem round_to_arcminute_nearest (pos : Q) : repr pos -> 0 <= pos -> pos < 30 ->
  Qabs (inject_Z (60 * fst (round_to_arcminute pos) + snd (round_to_arcminute pos)) - 60 * pos)
    <= (1 # 2) + pow2 (-48) \/
  (round_to_arcminute pos = (29%Z, 59%Z) /\ 1799 < 60 * pos).
Proof. intros Hr H0 H30. exact (round_to_arcminute_accurate pos Hr H0 H30). Qed.

Lemma zodiac_sign_and_pos_every_float_witness :
  let x := inject_Z (-30) in
  let lon := normalize_deg x in
  let k := Qfloor (lon / 30) in
  (lon < 360 /\
   exists s p, zodiac_sign_and_pos x = Ok (s, p) /\ py_index SIGNS k = Ok s /\
               p == lon - inject_Z k * 30 /\ 0 <= p /\ p < 30) \/
  (lon = 360 /\ x < 0 /\ zodiac_sign_and_pos x = Raise IndexError).
Proof. apply zodiac_sign_and_pos_every_float. apply repr_Z. lia. Defined.

Lemma round_to_arcminute_nearest_witness :
  let pos := rnd64 (901 # 60) in
  Qabs (inject_Z (60 * fst (round_to_arcminute pos) + snd (round_to_arcminute pos)) - 60 * pos)
    <= (1 # 2) + pow2 (-48) \/
  (round_to_arcminute pos = (29%Z, 59%Z) /\ 1799 < 60 * pos).
Proof.
  apply round_to_arcminute_nearest.
  - apply rnd64_is_repr.
  - apply qleb_spec. vm_compute. reflexivity.
  - apply qltb_spec. vm_compute. reflexivity.
Defined.

End FormatterExtra.

(* ------------------------------------------------------------------ *)
(** ** Time conversion *)

Module TimeExtra.
Import Float64 Float64Facts Py App ZodiacFacts.
Local Open Scope Q_scope.

Lemma repr_q14 (n : Z) : (Z.abs n < 2 ^ 53)%Z -> repr (n # 16384).
Proof.
  intros Hn. exists n, (-14)%Z. split; [| split; [exact Hn | lia]].
  change (pow2 (-14)) with (1 # 16384). unfold Qeq. simpl. lia.
Qed.

Lemma hour_plus_q14 (h n : Z) : (0 <= h <= 23)%Z -> (0 <= n < 16384)%Z ->
  repr (inject_Z h + (n # 16384)).
Proof.
  intros Hh Hn. apply (repr_comp ((h * 16384 + n) # 16384)).
  - unfold Qeq, Qplus. simpl. lia.
  - apply repr_q14. lia.
Qed.

Lemma Zle_inject (a b : Z) : (a <= b)%Z -> inject_Z a <= inject_Z b.
Proof. intros H. rewrite <- Zle_Qle. exact H. Qed.

(** [julian_day_ut] on a datetime with an hour in [0..23] and minutes and
    seconds in [0..59]: it passes [swe.julday] the date's year, month and
    day and a float [ut_hours] with [0 <= ut_hours < hour + 1], so below
    [24]; on a whole hour [ut_hours] is exactly [hour]. *)
Theorem julian_day_ut_hours (julday : Z -> Z -> Z -> Q -> result Q) (utc_dt : datetime) :
  (0 <= dt_hour utc_dt <= 23)%Z -> (0 <= dt_minute utc_dt <= 59)%Z ->
  (0 <= dt_second utc_dt <= 59)%Z ->
  exists ut_hours,
    julian_day_ut_of julday utc_dt =
      julday (dt_year utc_dt) (dt_month utc_dt) (dt_day utc_dt) ut_hours /\
    0 <= ut_hours /\ ut_hours < inject_Z (dt_hour utc_dt) + 1 /\ ut_hours < 24 /\
    (dt_minute utc_dt = 0%Z -> dt_second utc_dt = 0%Z -> ut_hours = inject_Z (dt_hour utc_dt)).
Proof.
  destruct utc_dt as [y mo d h mi s iso]. cbn [dt_year dt_month dt_day dt_hour dt_minute dt_second].
  intros Hh Hmi Hs.
  unfold julian_day_ut_of. cbv zeta. cbn [dt_year dt_month dt_day dt_hour dt_minute dt_second].
  eexists. split; [reflexivity |].
  set (a := fdiv (inject_Z mi) 60). set (b := fdiv (inject_Z s) 3600).
  set (u1 := fadd (inject_Z h) a).
  pose proof (Zle_inject _ _ (proj1 Hh)) as H0. pose proof (Zle_inject _ _ (proj2 Hh)) as H23.
  pose proof (Zle_inject _ _ (proj1 Hmi)) as M0. pose proof (Zle_inject _ _ (proj2 Hmi)) as M59.
  pose proof (Zle_inject _ _ (proj1 Hs)) as S0. pose proof (Zle_inject _ _ (proj2 Hs)) as S59.
  change (inject_Z 0) with 0 in H0, M0, S0.
  change (inject_Z 23) with 23 in H23. change (inject_Z 59) with 59 in M59, S59.
  assert (A0 : 0 <= a).
  { apply rnd64_nonneg. apply Qle_shift_div_l; [reflexivity |]. rewrite Qmult_0_l. exact M0. }
  assert (A1 : a <= 16111 # 16384).
  { apply rnd64_le.
    - apply Qle_shift_div_l; [reflexivity |]. rewrite Qmult_0_l. exact M0.
    - apply Qle_shift_div_r; [reflexivity |]. lra.
    - apply repr_q14. lia. }
  assert (B0 : 0 <= b).
  { apply rnd64_nonneg. apply Qle_shift_div_l; [reflexivity |]. rewrite Qmult_0_l. exact S0. }
  assert (B1 : b <= 269 # 16384).
  { apply rnd64_le.
    - apply Qle_shift_div_l; [reflexivity |]. rewrite Qmult_0_l. exact S0.
    - apply Qle_shift_div_r; [reflexivity |]. lra.
    - apply repr_q14. lia. }
  assert (U0 : 0 <= u1) by (apply rnd64_nonneg; lra).
  assert (U1 : u1 <= inject_Z h + (16111 # 16384)).
  { apply rnd64_le; [lra | lra | apply hour_plus_q14; lia]. }
  assert (T1 : fadd u1 b <= inject_Z h + (16380 # 16384)).
  { apply rnd64_le; [lra | lra | apply hour_plus_q14; lia]. }
  split; [apply rnd64_nonneg; lra |].
  split; [lra |]. split; [lra |].
  intros -> ->.
  assert (Z0 : forall c, fdiv (inject_Z 0) c = 0) by (intros c; apply rnd64_zero; reflexivity).
  assert (Hr : repr (inject_Z h)) by (apply repr_Z; lia).
  unfold b, u1, a. rewrite !Z0.
  assert (F : fadd (inject_Z h) 0 = inject_Z h).
  { unfold fadd. rewrite rnd64_repr by (apply (repr_comp (inject_Z h)); [ring | exact Hr]).
    rewrite (Qred_complete _ (inject_Z h)) by ring. apply Qred_inject_Z. }
  rewrite F. exact F.
Qed.

Lemma julian_day_ut_hours_witness :
  let dt := {| dt_year := 1999; dt_month := 12; dt_day := 31; dt_hour := 23; dt_minute := 59;
               dt_second := 59; dt_isoformat := "1999-12-31T23:59:59+00:00" |} in
  exists ut_hours,
    julian_day_ut_of Stub.julday dt = Stub.julday (dt_year dt) (dt_month dt) (dt_day dt) ut_hours /\
    0 <= ut_hours /\ ut_hours < inject_Z (dt_hour dt) + 1 /\ ut_hours < 24 /\
    (dt_minute dt = 0%Z -> dt_second dt = 0%Z -> ut_hours = inject_Z (dt_hour dt)).
Proof. apply julian_day_ut_hours; cbn; lia. Defined.

End TimeExtra.

(* ------------------------------------------------------------------ *)
(** ** The Open-Meteo answer *)

Module GeocodeExtra.
Import Float64 Py Json App.
Local Open Scope Z_scope.
Local Open Scope string_scope.

(** When Nominatim finds nothing or fails and Open-Meteo answers with a
    non-error status and a JSON body whose ["results"] list is not empty and
    whose first entry has numeric ["latitude"] and ["longitude"],
    [geocode_location] returns these two numbers as floats, with the raw
    part [{"source": "open-meteo", "raw": <first entry>}]; later entries are
    ignored. *)
Theorem geocode_open_meteo_first_result
  (nominatim_geocode : string -> result (option location))
  (requests_get : string -> list (string * param) -> Z -> result response)
  (parse_float : string -> result Q) (query : string)
  (r : response) (data best : json) (rest : list json) (la lo : Q) :
  (nominatim_geocode query = Ok None \/ exists e, nominatim_geocode query = Raise e) ->
  requests_get OPEN_METEO_URL (om_params query) 10 = Ok r ->
  ~ (400 <= status_code r < 600) ->
  resp_json r = Ok data ->
  json_get data "results" = Ok (Some (JArr (best :: rest))) ->
  json_getitem best "latitude" = Ok (JNum la) ->
  json_getitem best "longitude" = Ok (JNum lo) ->
  snd (geocode_location nominatim_geocode requests_get parse_float query) =
  Ok (rnd64 la, rnd64 lo, JObj [("source", JStr "open-meteo"); ("raw", best)]).
Proof.
  intros Hn Hg Hs Hj Hres Hla Hlo.
  assert (Hst : ((400 <=? status_code r)%Z && (status_code r <? 600)%Z)%bool = false).
  { apply andb_false_iff. destruct (Z.leb_spec 400 (status_code r)); [right | left; reflexivity].
    apply Z.ltb_ge. lia. }
  assert (Ho : open_meteo_answer parse_float r =
               Ok (rnd64 la, rnd64 lo, JObj [("source", JStr "open-meteo"); ("raw", best)])).
  { unfold open_meteo_answer, raise_for_status. rewrite Hst. cbn [bind].
    rewrite Hj. cbn [bind]. rewrite Hres. cbn [bind json_truthy negb json_index].
    change (py_index (best :: rest) 0) with (Ok best : result json). cbn [bind].
    rewrite Hla. cbn [bind py_float]. rewrite Hlo. reflexivity. }
  unfold geocode_location.
  destruct Hn as [Hn | [e Hn]]; rewrite Hn; cbn [snd]; rewrite Hg; cbn [bind]; rewrite Ho; reflexivity.
Qed.

Lemma geocode_open_meteo_first_result_witness :
  snd (geocode_location Stub.nominatim_geocode Stub.requests_get Stub.parse_float
         "Huntington, WV, USA") =
  Ok (rnd64 (3841 # 100), rnd64 (-8244 # 100),
      JObj [("source", JStr "open-meteo");
            ("raw", JObj [("latitude", JNum (3841 # 100)); ("longitude", JNum (-8244 # 100))])]).
Proof.
  apply (geocode_open_meteo_first_result _ _ _ _
           {| status_code := 200;
              resp_json := Ok (JObj [("results", JArr [JObj [("latitude", JNum (3841 # 100));
                                                              ("longitude", JNum (-8244 # 100))]])]);
              http_error_text := "" |}
           (JObj [("results", JArr [JObj [("latitude", JNum (3841 # 100));
                                          ("longitude", JNum (-8244 # 100))]])])
           _ []);
    try reflexivity.
  - right. exists (LibraryError "Service timed out"). reflexivity.
  - cbn. lia.
Defined.

End GeocodeExtra.

(* ------------------------------------------------------------------ *)
(** ** The [/chart] handler as a whole *)

Module ChartExtra.
Import Float64 Float64Facts Py Zodiac ZodiacFacts Json App AppFacts FormatFacts ChartFacts.
Local Open Scope Q_scope.
Local Open Scope string_scope.

Section Handler.
Variable calc_ut : Q -> Z -> Z -> result (list Q * Z).
Variable house_pos : Q -> Q -> Q -> Q * Q -> string -> result Q.
Variable houses_ex : Q -> Q -> Q -> string -> result (list Q * list Q).
Variable julday : Z -> Z -> Z -> Q -> result Q.
Variable nominatim_geocode : string -> result (option location).
Variable requests_get : string -> list (string * param) -> Z -> result response.
Variable parse_float : string -> result Q.
Variable timezone_at : Q -> Q -> result (option string).
Variable closest_timezone_at : Q -> Q -> result (option string).
Variable tzinfo : Type.
Variable ZoneInfo : string -> result tzinfo.
Variable import_tzdata : result unit.
Variable make_datetime : Z -> Z -> Z -> Z -> Z -> tzinfo -> result datetime.
Variable astimezone_utc : datetime -> result datetime.

(** When the longitudes that [swe.calc_ut] (for the bodies of [PLANETS])
    and [swe.houses_ex] return are floats, every field of a successful
    [chart] answer is in range: each planet and each cusp has a sign of
    [SIGNS], a degree in [0..29], a minute in [0..59] and a longitude in
    [[0, 360]], each planet a house in [1..12]; ASC and MC have the same
    ranges with a longitude in [[0, 360)]. *)
Theorem chart_fields_in_range (req : ChartRequest) (out : chart_out) :
  (forall jd name body xx f, In (name, body) PLANETS ->
     calc_ut jd body FLAGS = Ok (xx, f) -> Forall repr xx) ->
  (forall jd lat lon hsys cusps ascmc, houses_ex jd lat lon hsys = Ok (cusps, ascmc) ->
     Forall repr cusps /\ Forall repr ascmc) ->
  chart calc_ut house_pos houses_ex julday nominatim_geocode requests_get parse_float
        timezone_at closest_timezone_at tzinfo ZoneInfo import_tzdata make_datetime
        astimezone_utc req = Ok out ->
  Forall (fun ne : string * planet_out =>
    In (p_sign (snd ne)) SIGNS /\ (0 <= p_deg (snd ne) <= 29)%Z /\
    (0 <= p_min (snd ne) <= 59)%Z /\ 0 <= p_lon_deg (snd ne) <= 360 /\
    (1 <= p_house (snd ne) <= 12)%Z) (planets out) /\
  Forall (fun c => In (c_sign c) SIGNS /\ (0 <= c_deg c <= 29)%Z /\
                   (0 <= c_min c <= 59)%Z /\ 0 <= c_lon_deg c <= 360) (house_cusps out) /\
  Forall (fun a => In (a_sign a) SIGNS /\ (0 <= a_deg a <= 29)%Z /\
                   (0 <= a_min a <= 59)%Z /\ 0 <= a_lon_deg a < 360)
         [angle_ASC out; angle_MC out].
Proof.
  intros Hc Hhx H. unfold chart in H. peel H.
  injection H as <-. cbn [planets house_cusps angle_ASC angle_MC a_sign a_deg a_min a_lon_deg].
  match goal with
  | Hh : houses_ex _ _ _ _ = Ok (?hs, ?am) |- _ => destruct (Hhx _ _ _ _ _ _ Hh) as [RH RA]
  end.
  split; [| split].
  - match goal with
    | Hp : planets_loop _ _ _ _ _ _ _ PLANETS [] = Ok _ |- _ =>
        apply (planets_loop_fields _ _ _ _ _ _ _ _ _ _
                 (fun n b xx f Hi Ec => Hc _ n b xx f Hi Ec) Hp (Forall_nil _))
    end.
  - match goal with
    | Hcl : cusps_loop 1 _ = Ok _ |- _ => refine (cusps_loop_fields _ _ _ _ Hcl)
    end.
    match goal with |- Forall repr (if ?b then _ else _) => destruct b end;
      [exact RH |].
    destruct RH; [constructor | assumption].
  - match goal with
    | E0 : py_index _ 0 = Ok ?asc, E1 : py_index _ 1 = Ok ?mc,
      Za : zodiac_sign_and_pos ?asc = Ok (_, ?ap), Ra : round_to_arcminute ?ap = (_, _),
      Zm : zodiac_sign_and_pos ?mc = Ok (_, ?mp), Rm : round_to_arcminute ?mp = (_, _) |- _ =>
        pose proof (angle_fields _ _ _ _ _
                      (proj1 (Forall_forall _ _) RA _ (py_index_In _ _ _ E0)) Za Ra) as FA;
        pose proof (angle_fields _ _ _ _ _
                      (proj1 (Forall_forall _ _) RA _ (py_index_In _ _ _ E1)) Zm Rm) as FM
    end.
    constructor; [| constructor; [| constructor]]; cbn [a_sign a_deg a_min a_lon_deg];
      [exact FA | exact FM].
Qed.

End Handler.

(** The stub library answers are floats. *)
Ltac solve_repr :=
  first [ apply repr_Z; vm_compute; reflexivity
        | exists (-1)%Z, (-1)%Z; vm_compute; split; [reflexivity | split; [reflexivity | discriminate]] ].

Ltac repr_list := repeat (apply Forall_cons; [solve_repr |]); apply Forall_nil.

Lemma stub_calc_ut_repr (jd : Q) (name : string) (body : Z) (xx : list Q) (f : Z) :
  In (name, body) PLANETS -> Stub.calc_ut jd body FLAGS = Ok (xx, f) -> Forall repr xx.
Proof.
  intros Hi Ec. unfold Stub.calc_ut in Ec. injection Ec as <- _.
  cbn in Hi. repeat destruct Hi as [Hi | Hi]; try (injection Hi as _ <-); try contradiction;
    repr_list.
Qed.

Lemma stub_houses_ex_repr (jd lat lon : Q) (hsys : string) (cusps ascmc : list Q) :
  Stub.houses_ex jd lat lon hsys = Ok (cusps, ascmc) -> Forall repr cusps /\ Forall repr ascmc.
Proof.
  intros Hh. unfold Stub.houses_ex in Hh. injection Hh as <- <-.
  split; cbn [map seq]; repr_list.
Qed.

Lemma chart_fields_in_range_witness :
  exists out, Stub.chart0 Stub.req0 = Ok out /\
  Forall (fun ne : string * planet_out =>
    In (p_sign (snd ne)) SIGNS /\ (0 <= p_deg (snd ne) <= 29)%Z /\
    (0 <= p_min (snd ne) <= 59)%Z /\ 0 <= p_lon_deg (snd ne) <= 360 /\
    (1 <= p_house (snd ne) <= 12)%Z) (planets out) /\
  Forall (fun c => In (c_sign c) SIGNS /\ (0 <= c_deg c <= 29)%Z /\
                   (0 <= c_min c <= 59)%Z /\ 0 <= c_lon_deg c <= 360) (house_cusps out) /\
  Forall (fun a => In (a_sign a) SIGNS /\ (0 <= a_deg a <= 29)%Z /\
                   (0 <= a_min a <= 59)%Z /\ 0 <= a_lon_deg a < 360)
         [angle_ASC out; angle_MC out].
Proof.
  remember (Stub.chart0 Stub.req0) as r eqn:E. destruct r as [out | e].
  - exists out. split; [reflexivity |].
    apply (chart_fields_in_range Stub.calc_ut Stub.house_pos Stub.houses_ex Stub.julday
             Stub.nominatim_geocode Stub.requests_get Stub.parse_float Stub.timezone_at
             Stub.closest_timezone_at unit Stub.ZoneInfo Stub.import_tzdata
             Stub.make_datetime Stub.astimezone_utc Stub.req0 out).
    + exact stub_calc_ut_repr.
    + exact stub_houses_ex_repr.
    + symmetry. exact E.
  - vm_compute in E. discriminate E.
Defined.

End ChartExtra.
